(** * Project store and relay router of the Telegram relay bot

    A shallow embedding of [storage.py] (the SQLite-backed project store)
    and of the routing part of [main.py] (the relay handler), followed by
    the properties of the two components.

    Conventions of the embedding.
    - A Python [str] is a [string] holding its UTF-8 bytes (a [str]
      without UTF-8 encoding, one with a lone surrogate, is outside the
      model).  Only concatenation, emptiness and equality are used by the
      program, and SQLite's default [BINARY] collation compares and
      orders [TEXT] by those bytes.
    - A Python [int] (a chat identifier, an [INTEGER] column) is a [Z];
      a nullable column or an [Optional[int]] is an [option Z].
    - The [projects] table is the list of its rows in rowid order, which
      is the order of insertion since rows are never deleted.
    - A storage method is a function from the table to an outcome (an
      exception or a value) and the table it leaves behind.
    - An [INTEGER] of SQLite holds a signed 64-bit number: binding a
      Python [int] outside that range as a parameter of a statement
      raises [OverflowError] before the statement runs. *)

From Stdlib Require Import ZArith String Ascii List Bool Lia.
From Stdlib Require Import Sorted Permutation.
From ExtLib Require Import Structures.Monad Structures.MonadExc Structures.MonadState.
Import ListNotations.
Import MonadNotation.
Local Open Scope string_scope.
Local Open Scope Z_scope.
Local Open Scope monad_scope.
Local Open Scope list_scope.

(** ** Python values *)

Module Py.

(** [o == n] for [o : Optional[int]] and [n : int]; also SQL's
    [column = ?] on a nullable column, where [NULL = n] is not true. *)
Definition eq_int (o : option Z) (n : Z) : bool :=
  match o with
  | Some m => m =? n
  | None => false
  end.

(** Truth value of an [Optional[int]]: [None] and [0] are false. *)
Definition truthy_int (o : option Z) : bool :=
  match o with
  | Some m => negb (m =? 0)
  | None => false
  end.

(** Truth value of an [Optional[str]]: [None] and [""] are false. *)
Definition truthy_str (o : option string) : bool :=
  match o with
  | Some s => negb (s =? "")%string
  | None => false
  end.

(** Truth value of an optional object without [__bool__] or [__len__]. *)
Definition truthy_obj {A : Type} (o : option A) : bool :=
  match o with
  | Some _ => true
  | None => false
  end.

(** Truth value of a tuple or list. *)
Definition truthy_seq {A : Type} (l : list A) : bool :=
  match l with
  | [] => false
  | _ :: _ => true
  end.

(** [o or d] where [d] is a [str]. *)
Definition str_or (o : option string) (d : string) : string :=
  match o with
  | Some s => if (s =? "")%string then d else s
  | None => d
  end.

(** [bool(n)] for an [int]. *)
Definition bool_of_int (n : Z) : bool := negb (n =? 0).

(** An [int] that fits a signed 64-bit number. *)
Definition fits_int64 (n : Z) : bool :=
  (-9223372036854775808 <=? n) && (n <=? 9223372036854775807).

End Py.

(** ** storage.py *)

Module Storage.

(** The dataclass [Project]. *)
Record Project : Type := {
  slug : string;
  customer_chat_id : option Z;
  executor_chat_id : option Z;
  is_active : bool
}.

(** A row of the table [projects]
    ([slug TEXT PRIMARY KEY, customer_chat_id INTEGER,
      executor_chat_id INTEGER, is_active INTEGER NOT NULL DEFAULT 1]). *)
Record Row : Type := {
  col_slug : string;
  col_customer_chat_id : option Z;
  col_executor_chat_id : option Z;
  col_is_active : Z
}.

Definition Table : Type := list Row.

(** The exceptions of the program.  The store raises [ValueError] with
    a message of its own; sqlite3 raises [OverflowError] when an [int]
    parameter does not fit an [INTEGER]; Python raises [AttributeError]
    when an attribute of [None] is read. *)
Inductive Exc : Type :=
| ValueError (msg : string)
| OverflowError
| AttributeError.

(** f"Проект {slug} уже существует": the spec's [AlreadyExists]. *)
Definition AlreadyExists (slug : string) : Exc :=
  ValueError ("Проект " ++ slug ++ " уже существует")%string.

(** f"Проект {slug} не найден": the spec's [NotFound]. *)
Definition NotFound (slug : string) : Exc :=
  ValueError ("Проект " ++ slug ++ " не найден")%string.

(** Statements run on a connection: the table is threaded through, an
    exception stops the run. *)
Definition Db (A : Type) : Type := Table -> (Exc + A) * Table.

#[global] Instance Monad_Db : Monad Db := {
  ret := fun _ a t => (inr a, t);
  bind := fun _ _ c k t =>
    match c t with
    | (inl e, t') => (inl e, t')
    | (inr a, t') => k a t'
    end
}.

#[global] Instance Exc_Db : MonadExc Exc Db := {
  raise := fun _ e t => (inl e, t);
  catch := fun _ c h t =>
    match c t with
    | (inl e, t') => h e t'
    | ok => ok
    end
}.

#[global] Instance State_Db : MonadState Table Db := {
  get := fun t => (inr t, t);
  put := fun t' _ => (inr tt, t')
}.

(** [with self._connect() as conn: body]: sqlite3's connection context
    manager commits when the body ends normally and rolls back to the
    last commit when an exception leaves it.  Every body of the store
    ends with its own [conn.commit()], so the last commit before an
    exception is the table the block started from. *)
Definition with_connect {A : Type} (body : Db A) : Db A :=
  fun t =>
    match body t with
    | (inl e, _) => (inl e, t)
    | ok => ok
    end.

(** [conn.commit()]: the pending writes are the table already. *)
Definition commit : Db unit := ret tt.

(** *** The SQL statements *)

(** Binding one parameter of [conn.execute(sql, parameters)] that is an
    [Optional[int]]: [None] is bound as [NULL], an [int] as an [INTEGER]
    when it fits, and otherwise the call raises before the statement
    runs. *)
Definition bind_parameter (value : option Z) : Db unit :=
  match value with
  | None => ret tt
  | Some n => if Py.fits_int64 n then ret tt else raise OverflowError
  end.

(** [SELECT ... FROM projects WHERE slug = ?] followed by [fetchone()]. *)
Definition row_where_slug (slug : string) (t : Table) : option Row :=
  find (fun r => (col_slug r =? slug)%string) t.

Definition select_where_slug (slug : string) : Db (option Row) :=
  t <- MonadState.get ;;
  ret (row_where_slug slug t).

(** [INSERT INTO projects (slug, executor_chat_id, is_active)
    VALUES (?, ?, 1)]: the new row takes the next rowid;
    [customer_chat_id] gets its default, [NULL]. *)
Definition insert_project (slug : string) (executor_chat_id : Z) : Db unit :=
  bind_parameter (Some executor_chat_id) ;;
  t <- MonadState.get ;;
  MonadState.put (t ++ [ {| col_slug := slug;
                 col_customer_chat_id := None;
                 col_executor_chat_id := Some executor_chat_id;
                 col_is_active := 1 |} ]).

(** [UPDATE projects SET ... WHERE slug = ?], the assignment given as a
    function on rows. *)
Definition update_rows (set : Row -> Row) (slug : string) (t : Table) : Table :=
  map (fun r => if (col_slug r =? slug)%string then set r else r) t.

Definition update_where_slug (set : Row -> Row) (slug : string) : Db unit :=
  t <- MonadState.get ;;
  MonadState.put (update_rows set slug t).

(** [SELECT * FROM projects WHERE executor_chat_id = ? OR
    customer_chat_id = ?] followed by [fetchone()]: the first matching
    row of the scan. *)
Definition row_where_chat (chat_id : Z) (t : Table) : option Row :=
  find (fun r => Py.eq_int (col_executor_chat_id r) chat_id
                 || Py.eq_int (col_customer_chat_id r) chat_id) t.

Definition select_where_chat (chat_id : Z) : Db (option Row) :=
  bind_parameter (Some chat_id) ;;
  bind_parameter (Some chat_id) ;;
  t <- MonadState.get ;;
  ret (row_where_chat chat_id t).

(** [ORDER BY slug]: rows by ascending slug under the [BINARY]
    collation; rows of equal slug keep their scan order. *)
Fixpoint insert_by_slug (r : Row) (rows : list Row) : list Row :=
  match rows with
  | [] => [r]
  | r' :: rows' =>
      if (col_slug r <=? col_slug r')%string then r :: rows
      else r' :: insert_by_slug r rows'
  end.

Definition order_by_slug (rows : list Row) : list Row :=
  fold_right insert_by_slug [] rows.

(** Ascending slugs, on rows and on projects. *)
Definition row_le (a b : Row) : Prop :=
  (col_slug a <=? col_slug b)%string = true.

Definition slug_le (a b : Project) : Prop :=
  (slug a <=? slug b)%string = true.

(** [SELECT * FROM projects ORDER BY slug] followed by [fetchall()]. *)
Definition select_all_order_by_slug : Db (list Row) :=
  t <- MonadState.get ;;
  ret (order_by_slug t).

(** The two columns [unlink_chat] names in its [updates] list. *)
Inductive Column : Type :=
| executor_chat_id_column
| customer_chat_id_column.

(** [SET {column} = ?, is_active = 1]. *)
Definition set_column_and_activate (column : Column) (value : option Z) (r : Row) : Row :=
  match column with
  | executor_chat_id_column =>
      {| col_slug := col_slug r;
         col_customer_chat_id := col_customer_chat_id r;
         col_executor_chat_id := value;
         col_is_active := 1 |}
  | customer_chat_id_column =>
      {| col_slug := col_slug r;
         col_customer_chat_id := value;
         col_executor_chat_id := col_executor_chat_id r;
         col_is_active := 1 |}
  end.

(** [SET is_active = 0]. *)
Definition set_inactive (r : Row) : Row :=
  {| col_slug := col_slug r;
     col_customer_chat_id := col_customer_chat_id r;
     col_executor_chat_id := col_executor_chat_id r;
     col_is_active := 0 |}.

(** *** SQLiteProjectStorage *)

Definition _row_to_project (row : Row) : Project :=
  {| slug := col_slug row;
     customer_chat_id := col_customer_chat_id row;
     executor_chat_id := col_executor_chat_id row;
     is_active := Py.bool_of_int (col_is_active row) |}.

Definition get (slug : string) : Db (option Project) :=
  row <- with_connect (select_where_slug slug) ;;
  ret (option_map _row_to_project row).

Definition create_project (slug : string) (executor_chat_id : Z) : Db Project :=
  with_connect (
    existing <- select_where_slug slug ;;
    match existing with
    | Some _ => raise (AlreadyExists slug)
    | None =>
        insert_project slug executor_chat_id ;;
        commit
    end) ;;
  ret {| slug := slug;
         customer_chat_id := None;
         executor_chat_id := Some executor_chat_id;
         is_active := true |}.

Definition bind_customer (slug : string) (customer_chat_id : Z) : Db (option Project) :=
  with_connect (
    row <- select_where_slug slug ;;
    match row with
    | None => raise (NotFound slug)
    | Some _ =>
        bind_parameter (Some customer_chat_id) ;;
        update_where_slug
          (set_column_and_activate customer_chat_id_column (Some customer_chat_id))
          slug ;;
        commit
    end) ;;
  get slug.

(** The loop [for column, value in updates: conn.execute(UPDATE ...)]. *)
Fixpoint execute_updates (updates : list (Column * option Z)) (slug : string) : Db unit :=
  match updates with
  | [] => ret tt
  | (column, value) :: rest =>
      bind_parameter value ;;
      update_where_slug (set_column_and_activate column value) slug ;;
      execute_updates rest slug
  end.

Definition unlink_chat (slug : string) (chat_id : Z) : Db (option Project) :=
  with_connect (
    row <- select_where_slug slug ;;
    match row with
    | None => raise (NotFound slug)
    | Some row =>
        let project := _row_to_project row in
        let updates := [] in
        let updates :=
          if Py.eq_int (executor_chat_id project) chat_id
          then updates ++ [(executor_chat_id_column, None)] else updates in
        let updates :=
          if Py.eq_int (customer_chat_id project) chat_id
          then updates ++ [(customer_chat_id_column, None)] else updates in
        match updates with
        | [] => update_where_slug set_inactive slug
        | _ :: _ => execute_updates updates slug
        end ;;
        commit
    end) ;;
  get slug.

Definition find_by_chat (chat_id : Z) : Db (option Project) :=
  row <- with_connect (select_where_chat chat_id) ;;
  ret (option_map _row_to_project row).

Definition list_projects : Db (list Project) :=
  rows <- with_connect select_all_order_by_slug ;;
  ret (map _row_to_project rows).

End Storage.

(** ** main.py: the relay handler *)

Module Main.

Import Storage.

(** The parts of the transport's objects the relay reads. *)

(** [telegram.User]: [is_bot] is set for every bot account. *)
Record User : Type := {
  user_id : Z;
  is_bot : bool
}.

(** [telegram.Chat], with its [id]. *)
Record Chat : Type := {
  chat_id : Z
}.

(** [PhotoSize], [Document], [Voice], [Audio] and [Video] are read for
    their [file_id] only. *)
Record Attachment : Type := {
  file_id : string
}.

(** [telegram.Message]; [photo] is the tuple of the sizes of the
    picture, empty when the message has none. *)
Record Message : Type := {
  from_user : option User;
  text : option string;
  caption : option string;
  photo : list Attachment;
  document : option Attachment;
  voice : option Attachment;
  audio : option Attachment;
  video : option Attachment
}.

(** [telegram.Update]. *)
Record Update : Type := {
  effective_message : option Message;
  effective_chat : option Chat
}.

(** The keys of [action_labels]: the only values [role] takes. *)
Inductive Role : Type :=
| customer
| executor.

Definition action_labels (role : Role) : string :=
  match role with
  | customer => "👤 Клиент:"
  | executor => "🧑‍🎨 Команда:"
  end.

(** The calls the relay makes on the transport. *)
Inductive Call : Type :=
| send_message (chat_id : Z) (text : string)
| send_photo (chat_id : Z) (photo : string) (caption : option string)
| send_document (chat_id : Z) (document : string) (caption : option string)
| send_voice (chat_id : Z) (voice : string) (caption : option string)
| send_audio (chat_id : Z) (audio : string) (caption : option string)
| send_video (chat_id : Z) (video : string) (caption : option string)
| reply_text (text : string).

(** The [chat_id] argument of a call; [reply_text] has none, it answers
    in the chat of the message. *)
Definition destination (call : Call) : option Z :=
  match call with
  | send_message chat_id _
  | send_photo chat_id _ _
  | send_document chat_id _ _
  | send_voice chat_id _ _
  | send_audio chat_id _ _
  | send_video chat_id _ _ => Some chat_id
  | reply_text _ => None
  end.

(** f"{prefix} {text}". *)
Definition prefixed (prefix text : string) : string :=
  (prefix ++ " " ++ text)%string.

Definition relay_text (project : Project) (message : Message)
    (target_chat_id : Z) (role : Role) : Call :=
  let prefix := action_labels role in
  let text := Py.str_or (text message) (Py.str_or (caption message) "") in
  send_message target_chat_id (prefixed prefix text).

Definition relay_media (project : Project) (message : Message)
    (target_chat_id : Z) (role : Role) : Call :=
  let caption := caption message in
  let prefix := action_labels role in
  let caption_prefixed :=
    match caption with
    | Some c => if (c =? "")%string then None else Some (prefixed prefix c)
    | None => None
    end in
  match photo message with
  | p :: ps =>
      let file_id := file_id (last ps p) in
      send_photo target_chat_id file_id caption_prefixed
  | [] =>
  match document message with
  | Some d => send_document target_chat_id (file_id d) caption_prefixed
  | None =>
  match voice message with
  | Some v => send_voice target_chat_id (file_id v) caption_prefixed
  | None =>
  match audio message with
  | Some a => send_audio target_chat_id (file_id a) caption_prefixed
  | None =>
  match video message with
  | Some v => send_video target_chat_id (file_id v) caption_prefixed
  | None =>
      let text :=
        Py.str_or (text message)
          (Py.str_or caption "(неизвестный тип сообщения)") in
      send_message target_chat_id (prefixed prefix text)
  end end end end end.

(** [message.from_user and message.from_user.is_bot]. *)
Definition from_bot (message : Message) : bool :=
  match from_user message with
  | Some user => is_bot user
  | None => false
  end.

(** The choice of [target_chat_id] and [role] in [relay_message]
    (the [if]/[elif]/[else] after the project is found): [None] is the
    [else: return]. *)
Definition route (project : Project) (source_chat_id : Z) : option (Z * Role) :=
  if Py.eq_int (executor_chat_id project) source_chat_id
     && Py.truthy_int (customer_chat_id project)
  then option_map (fun target_chat_id => (target_chat_id, executor))
                  (customer_chat_id project)
  else if Py.eq_int (customer_chat_id project) source_chat_id
          && Py.truthy_int (executor_chat_id project)
  then option_map (fun target_chat_id => (target_chat_id, customer))
                  (executor_chat_id project)
  else None.

(** The test that selects [relay_text]. *)
Definition text_only (message : Message) : bool :=
  Py.truthy_str (text message)
  && negb (Py.truthy_seq (photo message))
  && negb (Py.truthy_obj (document message))
  && negb (Py.truthy_obj (voice message))
  && negb (Py.truthy_obj (audio message))
  && negb (Py.truthy_obj (video message)).

(** The [try] block of [relay_message].  [transport] tells whether a
    call goes through ([true]) or raises; the result is the list of the
    calls made.  A failed relay is answered with a notice to the source
    chat, and a failure of that notice is only logged. *)
Definition forward (transport : Call -> bool) (project : Project)
    (message : Message) (target_chat_id : Z) (role : Role) : list Call :=
  let call :=
    if text_only message
    then relay_text project message target_chat_id role
    else relay_media project message target_chat_id role in
  if transport call then [call]
  else [call; reply_text "Не удалось переслать сообщение. Проверьте настройки бота."].

Definition relay_message (transport : Call -> bool) (update : Update)
    : Db (list Call) :=
  match effective_message update, effective_chat update with
  | Some message, Some chat =>
      if from_bot message then ret []
      else
        project <- find_by_chat (chat_id chat) ;;
        match project with
        | None => ret []
        | Some project =>
            if negb (is_active project) then ret []
            else
              let source_chat_id := chat_id chat in
              match route project source_chat_id with
              | Some (target_chat_id, role) =>
                  ret (forward transport project message target_chat_id role)
              | None => ret []
              end
        end
  | _, _ => ret []
  end.

End Main.

(** ** main.py: the command handlers *)

Module Handlers.

Import Storage Main.

(** The parts of [update] and [context] a command handler reads:
    [update.effective_user]; [update.effective_chat] (a command is a
    message, and a message always has a chat); [update.message], which is
    [None] when the update carries an edited message (commands are taken
    from edited messages too), while [update.effective_message] is then
    the edited message and so is always there; and [context.args]. *)
Record Command : Type := {
  effective_user : option User;
  command_chat : Chat;
  message : option Message;
  args : list string
}.

(** A handler answers through [reply_text]; its value is the list of the
    texts it replied with, in order.  Whether the transport then delivers
    a reply is not part of this value. *)
Definition Handler : Type := Command -> Db (list string).

(** [update.message.reply_text(text)]: reading [reply_text] off a
    missing message raises. *)
Definition message_reply_text (update : Command) (text : string)
    : Db (list string) :=
  match message update with
  | Some _ => ret [text]
  | None => raise AttributeError
  end.

(** [update.effective_message.reply_text(text)]. *)
Definition effective_message_reply_text (update : Command) (text : string)
    : Db (list string) :=
  ret [text].

(** The line feed of the multi-line replies. *)
Definition nl : string := String (ascii_of_nat 10) EmptyString.

(** [try: value = call] with [except ValueError as exc]: a [ValueError]
    is handed over as [str(exc)], its message; any other exception goes
    on. *)
Definition try_ {A : Type} (call : Db A) : Db (string + A) :=
  catch (value <- call ;; ret (inr value))
        (fun exc =>
           match exc with
           | ValueError msg => ret (inl msg)
           | _ => raise exc
           end).

(** [user_id == ADMIN_USER_ID]; the administrator's identifier is read
    from the environment by [config.py]. *)
Definition is_admin (ADMIN_USER_ID : Z) (user_id : option Z) : bool :=
  Py.eq_int user_id ADMIN_USER_ID.

Definition admin_only (ADMIN_USER_ID : Z) (func : Handler) : Handler :=
  fun update =>
    let user_id := option_map user_id (effective_user update) in
    if negb (is_admin ADMIN_USER_ID user_id)
    then effective_message_reply_text update
           "Эта команда доступна только администратору."
    else func update.

Definition create_project : Handler :=
  fun update =>
    match args update with
    | [] => message_reply_text update "Использование: /create_project <slug>"
    | slug :: _ =>
        let chat_id := chat_id (command_chat update) in
        outcome <- try_ (Storage.create_project slug chat_id) ;;
        match outcome with
        | inl str_exc => message_reply_text update str_exc
        | inr project =>
            message_reply_text update
              ("Проект " ++ Storage.slug project
               ++ " создан. Теперь зайдите в чат с заказчиками и выполните /bind_customer "
               ++ Storage.slug project ++ ".")%string
        end
    end.

(** [storage.bind_customer] returns what [get] reads back, an optional
    project; the reply reads its [slug], which raises on [None]. *)
Definition bind_customer : Handler :=
  fun update =>
    match args update with
    | [] => message_reply_text update "Использование: /bind_customer <slug>"
    | slug :: _ =>
        let chat_id := chat_id (command_chat update) in
        outcome <- try_ (Storage.bind_customer slug chat_id) ;;
        match outcome with
        | inl str_exc => message_reply_text update str_exc
        | inr (Some project) =>
            message_reply_text update
              ("Проект " ++ Storage.slug project
               ++ ": чат заказчика успешно привязан.")%string
        | inr None => raise AttributeError
        end
    end.

Definition project_info : Handler :=
  fun update =>
    let chat_id := chat_id (command_chat update) in
    project <- find_by_chat chat_id ;;
    match project with
    | None =>
        message_reply_text update "Этот чат не привязан ни к одному проекту."
    | Some project =>
        let chat_type :=
          if Py.eq_int (executor_chat_id project) chat_id
          then "чат исполнителей" else "чат заказчиков" in
        let status := if is_active project then "активен" else "неактивен" in
        message_reply_text update
          ("Проект: " ++ slug project ++ nl
           ++ "Тип чата: " ++ chat_type ++ nl
           ++ "Статус: " ++ status)%string
    end.

(** The line [list_projects] writes for one project. *)
Definition project_line (project : Project) : string :=
  let customer_status :=
    if Py.truthy_int (customer_chat_id project)
    then "привязан" else "не привязан" in
  let executor_status :=
    if Py.truthy_int (executor_chat_id project)
    then "привязан" else "не привязан" in
  let active_status := if is_active project then "активен" else "неактивен" in
  (slug project ++ ": заказчик " ++ customer_status
   ++ ", исполнитель " ++ executor_status
   ++ ", статус " ++ active_status)%string.

Definition list_projects : Handler :=
  fun update =>
    projects <- Storage.list_projects ;;
    match projects with
    | [] => message_reply_text update "Проекты отсутствуют."
    | _ :: _ =>
        message_reply_text update (String.concat nl (map project_line projects))
    end.

Definition unlink_project : Handler :=
  fun update =>
    match args update with
    | [] => message_reply_text update "Использование: /unlink_project <slug>"
    | slug :: _ =>
        let chat_id := chat_id (command_chat update) in
        outcome <- try_ (Storage.unlink_chat slug chat_id) ;;
        match outcome with
        | inl str_exc => message_reply_text update str_exc
        | inr (Some project) =>
            message_reply_text update
              ("Проект " ++ Storage.slug project
               ++ ": чат отвязан или проект деактивирован. Активен: "
               ++ (if is_active project then "да" else "нет")
               ++ ".")%string
        | inr None => raise AttributeError
        end
    end.

Definition start : Handler :=
  fun update =>
    message_reply_text update
      "Бот-посредник активен. Используйте /project_info чтобы узнать привязку чата.".

Definition admin_create_project (ADMIN_USER_ID : Z) : Handler :=
  admin_only ADMIN_USER_ID create_project.

Definition admin_bind_customer (ADMIN_USER_ID : Z) : Handler :=
  admin_only ADMIN_USER_ID bind_customer.

Definition admin_list_projects (ADMIN_USER_ID : Z) : Handler :=
  admin_only ADMIN_USER_ID list_projects.

Definition admin_unlink_project (ADMIN_USER_ID : Z) : Handler :=
  admin_only ADMIN_USER_ID unlink_project.

End Handlers.

Import Storage Main.

(** ** The scenario of the store's walk-through

    One project ["p"] created from chat 111 and bound to customer chat
    222, and one project ["q"] created and bound from the same chat 5. *)

Module Scenario.

Definition empty : Table := [].

Definition created : Table := snd (create_project "p" 111 empty).

Definition bound : Table := snd (bind_customer "p" 222 created).

Definition tied : Table :=
  snd (bind_customer "q" 5 (snd (create_project "q" 5 empty))).

(** A project whose customer chat is bound from chat 0. *)
Definition zero_bound : Table :=
  snd (bind_customer "z" 0 (snd (create_project "z" 111 empty))).

Definition person : User := {| user_id := 7; is_bot := false |}.

Definition some_bot : User := {| user_id := 8; is_bot := true |}.

Definition text_message (author : option User) (body : string) : Message :=
  {| from_user := author; text := Some body; caption := None;
     photo := []; document := None; voice := None; audio := None;
     video := None |}.

Definition photo_message (author : option User) (note : option string) : Message :=
  {| from_user := author; text := None; caption := note;
     photo := [ {| file_id := "small" |}; {| file_id := "large" |} ];
     document := None; voice := None; audio := None; video := None |}.

Definition update_in (chat : Z) (message : Message) : Update :=
  {| effective_message := Some message;
     effective_chat := Some {| chat_id := chat |} |}.

(** A transport on which every call goes through. *)
Definition delivering (call : Call) : bool := true.

(** The projects as stored in these tables. *)
Definition p_created : Project :=
  {| slug := "p"; customer_chat_id := None;
     executor_chat_id := Some 111; is_active := true |}.

Definition p_bound : Project :=
  {| slug := "p"; customer_chat_id := Some 222;
     executor_chat_id := Some 111; is_active := true |}.

Definition q_tied : Project :=
  {| slug := "q"; customer_chat_id := Some 5;
     executor_chat_id := Some 5; is_active := true |}.

Definition z_bound : Project :=
  {| slug := "z"; customer_chat_id := Some 0;
     executor_chat_id := Some 111; is_active := true |}.

End Scenario.

(** ** The scenario of the commands

    The administrator 1000 and a guest 2000 issue commands from chat
    111; two projects ["a"] and ["b"] in either order of creation. *)

Module Office.

Definition admin_id : Z := 1000.

Definition admin : User := {| user_id := 1000; is_bot := false |}.

Definition guest : User := {| user_id := 2000; is_bot := false |}.

(** A command sent as a new message. *)
Definition command (user : option User) (chat : Z) (words : list string)
    : Handlers.Command :=
  {| Handlers.effective_user := user;
     Handlers.command_chat := {| chat_id := chat |};
     Handlers.message := Some (Scenario.text_message user "/command");
     Handlers.args := words |}.

(** A command that arrives as the edit of an earlier message. *)
Definition edited_command (user : option User) (chat : Z) (words : list string)
    : Handlers.Command :=
  {| Handlers.effective_user := user;
     Handlers.command_chat := {| chat_id := chat |};
     Handlers.message := None;
     Handlers.args := words |}.

(** The first identifier an [INTEGER] cannot hold. *)
Definition too_large : Z := 9223372036854775808.

Definition a_then_b : Table :=
  snd (create_project "b" 2 (snd (create_project "a" 1 Scenario.empty))).

Definition b_then_a : Table :=
  snd (create_project "a" 1 (snd (create_project "b" 2 Scenario.empty))).

End Office.

(** * Properties *)

(** ** Strings under the [BINARY] collation *)

Section StringOrder.

Lemma ascii_compare_refl (a : ascii) : Ascii.compare a a = Eq.
Proof. unfold Ascii.compare. apply N.compare_refl. Qed.

Lemma ascii_compare_lt_trans (a b c : ascii) :
  Ascii.compare a b = Lt -> Ascii.compare b c = Lt -> Ascii.compare a c = Lt.
Proof. unfold Ascii.compare. rewrite !N.compare_lt_iff. lia. Qed.

Lemma string_compare_refl (s : string) : String.compare s s = Eq.
Proof.
  induction s as [|a s IH]; simpl; [reflexivity|].
  now rewrite ascii_compare_refl.
Qed.

Lemma string_compare_lt_trans (s1 : string) :
  forall s2 s3,
    String.compare s1 s2 = Lt -> String.compare s2 s3 = Lt ->
    String.compare s1 s3 = Lt.
Proof.
  induction s1 as [|a s1 IH]; intros [|b s2] [|c s3]; simpl; try congruence.
  destruct (Ascii.compare a b) eqn:Hab; try discriminate;
    destruct (Ascii.compare b c) eqn:Hbc; try discriminate; intros H12 H23.
  - apply Ascii.compare_eq_iff in Hab, Hbc. subst.
    rewrite ascii_compare_refl. eauto.
  - apply Ascii.compare_eq_iff in Hab. subst. now rewrite Hbc.
  - apply Ascii.compare_eq_iff in Hbc. subst. now rewrite Hab.
  - now rewrite (ascii_compare_lt_trans _ _ _ Hab Hbc).
Qed.

Lemma string_leb_refl (s : string) : (s <=? s)%string = true.
Proof. unfold String.leb. now rewrite string_compare_refl. Qed.

Lemma string_leb_trans (s1 s2 s3 : string) :
  (s1 <=? s2)%string = true -> (s2 <=? s3)%string = true ->
  (s1 <=? s3)%string = true.
Proof.
  unfold String.leb.
  destruct (String.compare s1 s2) eqn:H12; try discriminate;
    destruct (String.compare s2 s3) eqn:H23; try discriminate; intros _ _.
  - apply String.compare_eq_iff in H12, H23. subst.
    now rewrite string_compare_refl.
  - apply String.compare_eq_iff in H12. subst. now rewrite H23.
  - apply String.compare_eq_iff in H23. subst. now rewrite H12.
  - now rewrite (string_compare_lt_trans _ _ _ H12 H23).
Qed.

End StringOrder.

(** ** ORDER BY slug *)

Section OrderBy.

Lemma insert_by_slug_perm (r : Row) (rows : list Row) :
  Permutation (r :: rows) (insert_by_slug r rows).
Proof.
  induction rows as [|r' rows IH]; simpl; [reflexivity|].
  destruct (col_slug r <=? col_slug r')%string; [reflexivity|].
  rewrite perm_swap. now apply perm_skip.
Qed.

Lemma order_by_slug_perm (rows : list Row) :
  Permutation rows (order_by_slug rows).
Proof.
  induction rows as [|r rows IH]; simpl; [constructor|].
  rewrite <- insert_by_slug_perm. now apply perm_skip.
Qed.

Lemma insert_by_slug_sorted (r : Row) (rows : list Row) :
  StronglySorted row_le rows -> StronglySorted row_le (insert_by_slug r rows).
Proof.
  induction 1 as [|r' rows Hs IH Hall]; simpl.
  - repeat constructor.
  - destruct (col_slug r <=? col_slug r')%string eqn:Hle.
    + constructor; [now constructor|].
      constructor; [exact Hle|].
      eapply Forall_impl; [|exact Hall].
      intros x Hx. exact (string_leb_trans _ _ _ Hle Hx).
    + constructor; [exact IH|].
      eapply Permutation_Forall; [apply insert_by_slug_perm|].
      constructor; [|exact Hall].
      destruct (String.leb_total (col_slug r) (col_slug r')) as [H|H];
        [congruence | exact H].
Qed.

Lemma order_by_slug_sorted (rows : list Row) :
  StronglySorted row_le (order_by_slug rows).
Proof.
  induction rows as [|r rows IH]; simpl; [constructor|].
  now apply insert_by_slug_sorted.
Qed.

End OrderBy.

(** ** The store: what each method computes *)

Section StoreRuns.

Implicit Types (t : Table) (r : Row) (p : Project) (set : Row -> Row).

Lemma eq_int_iff (o : option Z) (n : Z) : Py.eq_int o n = true <-> o = Some n.
Proof.
  destruct o as [m|]; simpl; [|split; discriminate].
  rewrite Z.eqb_eq. split; congruence.
Qed.

Lemma eq_int_false_iff (o : option Z) (n : Z) : Py.eq_int o n = false <-> o <> Some n.
Proof.
  rewrite <- eq_int_iff. destruct (Py.eq_int o n); split; congruence.
Qed.

Lemma row_where_slug_slug slug t r :
  row_where_slug slug t = Some r -> col_slug r = slug.
Proof.
  intros H. apply find_some in H. now apply String.eqb_eq.
Qed.

Lemma row_where_slug_update set slug slug' t :
  (forall r, col_slug (set r) = col_slug r) ->
  row_where_slug slug' (update_rows set slug t) =
  if (slug' =? slug)%string then option_map set (row_where_slug slug t)
  else row_where_slug slug' t.
Proof.
  intros Hset. unfold row_where_slug, update_rows.
  induction t as [|r t IH]; simpl.
  - now destruct (slug' =? slug)%string.
  - destruct (String.eqb_spec (col_slug r) slug) as [Hr|Hr].
    + rewrite Hset, Hr.
      destruct (String.eqb_spec slug slug') as [->|Hne].
      * now rewrite String.eqb_refl.
      * rewrite IH. destruct (String.eqb_spec slug' slug); congruence.
    + destruct (String.eqb_spec (col_slug r) slug') as [Hr'|Hr'].
      * destruct (String.eqb_spec slug' slug); congruence.
      * exact IH.
Qed.

Lemma row_where_slug_insert slug slug' r t :
  col_slug r = slug ->
  row_where_slug slug' (t ++ [r]) =
  match row_where_slug slug' t with
  | Some r' => Some r'
  | None => if (slug =? slug')%string then Some r else None
  end.
Proof.
  intros <-. unfold row_where_slug.
  induction t as [|r' t IH]; simpl; [reflexivity|].
  now destruct (col_slug r' =? slug')%string.
Qed.

Lemma update_rows_twice set1 set2 slug t :
  (forall r, col_slug (set1 r) = col_slug r) ->
  update_rows set2 slug (update_rows set1 slug t) =
  update_rows (fun r => set2 (set1 r)) slug t.
Proof.
  intros Hset. unfold update_rows. rewrite map_map.
  apply map_ext. intros r.
  destruct (String.eqb_spec (col_slug r) slug) as [Hr|Hr].
  - now rewrite Hset, Hr, String.eqb_refl.
  - now apply String.eqb_neq in Hr; rewrite Hr.
Qed.

Lemma set_column_and_activate_slug column value r :
  col_slug (set_column_and_activate column value r) = col_slug r.
Proof. now destruct column. Qed.

Lemma get_run slug t :
  get slug t = (inr (option_map _row_to_project (row_where_slug slug t)), t).
Proof. reflexivity. Qed.

Lemma find_by_chat_run chat_id t :
  find_by_chat chat_id t =
  if Py.fits_int64 chat_id
  then (inr (option_map _row_to_project (row_where_chat chat_id t)), t)
  else (inl OverflowError, t).
Proof.
  unfold find_by_chat, with_connect, select_where_chat, bind_parameter.
  cbn. now destruct (Py.fits_int64 chat_id).
Qed.

Lemma find_by_chat_inr_inv chat_id t found :
  find_by_chat chat_id t = (inr found, t) ->
  Py.fits_int64 chat_id = true /\
  found = option_map _row_to_project (row_where_chat chat_id t).
Proof.
  rewrite find_by_chat_run.
  destruct (Py.fits_int64 chat_id); [|discriminate].
  intros [= <-]. now split.
Qed.

Lemma list_projects_run t :
  list_projects t = (inr (map _row_to_project (order_by_slug t)), t).
Proof. reflexivity. Qed.

Lemma create_project_run slug executor_chat_id t :
  create_project slug executor_chat_id t =
  match row_where_slug slug t with
  | Some _ => (inl (AlreadyExists slug), t)
  | None =>
      if Py.fits_int64 executor_chat_id
      then
        (inr {| slug := slug; customer_chat_id := None;
                executor_chat_id := Some executor_chat_id; is_active := true |},
         t ++ [ {| col_slug := slug; col_customer_chat_id := None;
                   col_executor_chat_id := Some executor_chat_id;
                   col_is_active := 1 |} ])
      else (inl OverflowError, t)
  end.
Proof.
  unfold create_project, with_connect, select_where_slug, insert_project,
    bind_parameter, commit.
  cbn. destruct (row_where_slug slug t); [reflexivity|].
  now destruct (Py.fits_int64 executor_chat_id).
Qed.

Lemma bind_customer_run slug customer_chat_id t :
  bind_customer slug customer_chat_id t =
  match row_where_slug slug t with
  | None => (inl (NotFound slug), t)
  | Some r =>
      if Py.fits_int64 customer_chat_id
      then
        let set := set_column_and_activate customer_chat_id_column
                     (Some customer_chat_id) in
        (inr (Some (_row_to_project (set r))), update_rows set slug t)
      else (inl OverflowError, t)
  end.
Proof.
  unfold bind_customer, with_connect, select_where_slug, update_where_slug,
    bind_parameter, commit.
  cbn. destruct (row_where_slug slug t) as [r|] eqn:Hr; [|reflexivity].
  destruct (Py.fits_int64 customer_chat_id); [|reflexivity].
  cbn. rewrite row_where_slug_update, String.eqb_refl, Hr
    by apply set_column_and_activate_slug.
  reflexivity.
Qed.

Lemma unlink_chat_run slug chat_id t :
  unlink_chat slug chat_id t =
  match row_where_slug slug t with
  | None => (inl (NotFound slug), t)
  | Some r =>
      let clear := fun column => set_column_and_activate column None in
      let set := fun r' =>
        if Py.eq_int (col_executor_chat_id r) chat_id
        then if Py.eq_int (col_customer_chat_id r) chat_id
             then clear customer_chat_id_column (clear executor_chat_id_column r')
             else clear executor_chat_id_column r'
        else if Py.eq_int (col_customer_chat_id r) chat_id
             then clear customer_chat_id_column r'
             else set_inactive r' in
      (inr (Some (_row_to_project (set r))), update_rows set slug t)
  end.
Proof.
  unfold unlink_chat, with_connect, select_where_slug, commit.
  cbn. destruct (row_where_slug slug t) as [r|] eqn:Hr; [|reflexivity].
  cbn.
  destruct (Py.eq_int (col_executor_chat_id r) chat_id),
           (Py.eq_int (col_customer_chat_id r) chat_id); cbn;
    rewrite ?update_rows_twice by apply set_column_and_activate_slug;
    rewrite row_where_slug_update, String.eqb_refl, Hr;
    try reflexivity; intros r'; cbn;
    now rewrite ?set_column_and_activate_slug.
Qed.

End StoreRuns.

(** ** The store: reading back after a write *)

Section StoreReads.

Implicit Types (t : Table) (r : Row) (p : Project) (set : Row -> Row).

Lemma get_some_inv slug t p :
  get slug t = (inr (Some p), t) ->
  exists r, row_where_slug slug t = Some r /\ p = _row_to_project r.
Proof.
  rewrite get_run. destruct (row_where_slug slug t) as [r|]; simpl; [|discriminate].
  intros [= <-]. now exists r.
Qed.

Lemma get_none_inv slug t :
  get slug t = (inr None, t) -> row_where_slug slug t = None.
Proof.
  rewrite get_run. now destruct (row_where_slug slug t).
Qed.

Lemma get_known_or_unknown slug t :
  get slug t = (inr None, t) \/ exists p, get slug t = (inr (Some p), t).
Proof.
  rewrite get_run. destruct (row_where_slug slug t); simpl; eauto.
Qed.

Lemma get_after_update set slug t r :
  (forall r', col_slug (set r') = col_slug r') ->
  row_where_slug slug t = Some r ->
  get slug (update_rows set slug t) =
  (inr (Some (_row_to_project (set r))), update_rows set slug t).
Proof.
  intros Hset Hr.
  now rewrite get_run, row_where_slug_update, String.eqb_refl, Hr.
Qed.

Lemma get_other_after_update set slug slug' t :
  (forall r', col_slug (set r') = col_slug r') ->
  slug' <> slug ->
  fst (get slug' (update_rows set slug t)) = fst (get slug' t).
Proof.
  intros Hset Hne. rewrite !get_run, row_where_slug_update by exact Hset.
  now destruct (String.eqb_spec slug' slug).
Qed.

Lemma get_other_after_insert slug slug' r t :
  col_slug r = slug -> slug' <> slug ->
  fst (get slug' (t ++ [r])) = fst (get slug' t).
Proof.
  intros Hr Hne. rewrite !get_run, (row_where_slug_insert slug) by exact Hr.
  destruct (row_where_slug slug' t); [reflexivity|].
  destruct (String.eqb_spec slug slug'); [congruence | reflexivity].
Qed.

Lemma set_inactive_slug r : col_slug (set_inactive r) = col_slug r.
Proof. reflexivity. Qed.

End StoreReads.

Create HintDb store.
Create Rewrite HintDb store.
#[local] Hint Resolve set_column_and_activate_slug set_inactive_slug : store.
#[local] Hint Rewrite set_column_and_activate_slug : store.

(** The net assignment of an [unlink_chat] keeps the slug, whichever
    branch it takes. *)
Ltac unlink_cases r chat_id :=
  destruct (Py.eq_int (col_executor_chat_id r) chat_id) eqn:?He,
           (Py.eq_int (col_customer_chat_id r) chat_id) eqn:?Hc.

Ltac keeps_slug :=
  intros; cbn; autorewrite with store; reflexivity.

(** ** The project store *)

Section StoreProperties.

Implicit Types (t : Table) (p : Project).

(** C5, as the store has it.  [create_project] on a taken slug raises
    the already-exists [ValueError] and leaves the table as it was.  On
    a free slug, with an executor chat that fits a signed 64-bit number,
    it returns and stores the project with the given slug and executor
    chat, no customer chat, and active.  On a free slug with an executor
    chat that does not fit, it raises [OverflowError] and stores
    nothing. *)
Theorem create_project_spec slug executor_chat_id t :
  (forall p, get slug t = (inr (Some p), t) ->
     create_project slug executor_chat_id t = (inl (AlreadyExists slug), t))
  /\
  (get slug t = (inr None, t) ->
   Py.fits_int64 executor_chat_id = true ->
     let created := {| slug := slug; customer_chat_id := None;
                       executor_chat_id := Some executor_chat_id;
                       is_active := true |} in
     exists t',
       create_project slug executor_chat_id t = (inr created, t') /\
       get slug t' = (inr (Some created), t'))
  /\
  (get slug t = (inr None, t) ->
   Py.fits_int64 executor_chat_id = false ->
     create_project slug executor_chat_id t = (inl OverflowError, t)).
Proof.
  rewrite create_project_run. split; [|split].
  - intros p Hp. apply get_some_inv in Hp as (r & -> & _). reflexivity.
  - intros Hnone Hfits created. apply get_none_inv in Hnone.
    rewrite Hnone, Hfits. eexists. split; [reflexivity|].
    rewrite get_run, (row_where_slug_insert slug), Hnone, String.eqb_refl
      by reflexivity.
    reflexivity.
  - intros Hnone Hfits. apply get_none_inv in Hnone.
    now rewrite Hnone, Hfits.
Qed.

(** C6. [bind_customer] raises the not-found [ValueError] exactly when
    the slug is unknown, and then leaves the table as it was.  Whenever
    it returns, it returns the project as stored afterwards, with the
    given customer chat, whatever was stored before, and active.  It
    does return on a known slug when the customer chat fits a signed
    64-bit number; when it does not fit, the call raises [OverflowError]
    and leaves the table as it was. *)
Theorem bind_customer_spec slug customer_chat_id t :
  (fst (bind_customer slug customer_chat_id t) = inl (NotFound slug) <->
     get slug t = (inr None, t))
  /\
  (get slug t = (inr None, t) ->
     bind_customer slug customer_chat_id t = (inl (NotFound slug), t))
  /\
  (forall found t',
     bind_customer slug customer_chat_id t = (inr found, t') ->
     exists p',
       found = Some p' /\
       get slug t' = (inr (Some p'), t') /\
       Storage.customer_chat_id p' = Some customer_chat_id /\
       is_active p' = true)
  /\
  (forall p, get slug t = (inr (Some p), t) ->
   Py.fits_int64 customer_chat_id = true ->
     exists p' t',
       bind_customer slug customer_chat_id t = (inr (Some p'), t'))
  /\
  (forall p, get slug t = (inr (Some p), t) ->
   Py.fits_int64 customer_chat_id = false ->
     bind_customer slug customer_chat_id t = (inl OverflowError, t)).
Proof.
  rewrite bind_customer_run.
  assert (Hknown : forall r, row_where_slug slug t = Some r ->
            get slug t = (inr None, t) -> False).
  { intros r Hr Hnone. apply get_none_inv in Hnone. congruence. }
  destruct (row_where_slug slug t) as [r|] eqn:Hr.
  - destruct (Py.fits_int64 customer_chat_id) eqn:Hfits; cbv zeta.
    + split; [split; [discriminate | intros H; now destruct (Hknown r)]|].
      split; [intros H; now destruct (Hknown r)|].
      split; [|split; [|discriminate]].
      * intros found t' Heq. injection Heq as <- <-.
        eexists. split; [reflexivity|]. split; [|now split].
        apply (get_after_update
                 (set_column_and_activate customer_chat_id_column
                    (Some customer_chat_id)) slug t r);
          [keeps_slug | exact Hr].
      * intros p _ _. now eexists _, _.
    + split; [split; [discriminate | intros H; now destruct (Hknown r)]|].
      split; [intros H; now destruct (Hknown r)|].
      split; [discriminate|]. split; [discriminate | reflexivity].
  - split; [split; [intros _ | reflexivity]|].
    { now rewrite get_run, Hr. }
    split; [reflexivity|].
    split; [discriminate|].
    split; intros p Hp; apply get_some_inv in Hp as (r & Hr' & _);
      congruence.
Qed.

(** C4. [unlink_chat] on an unknown slug raises the not-found
    [ValueError].  On a known slug it returns the project as stored
    afterwards: cleared of its executor chat and active when the chat
    is the executor chat and not the customer chat; otherwise cleared
    of its customer chat and active when the chat is the customer chat;
    otherwise with both chats as they were and inactive. *)
Theorem unlink_chat_policy slug chat_id t :
  (get slug t = (inr None, t) ->
     unlink_chat slug chat_id t = (inl (NotFound slug), t))
  /\
  (forall p, get slug t = (inr (Some p), t) ->
     exists p' t',
       unlink_chat slug chat_id t = (inr (Some p'), t') /\
       get slug t' = (inr (Some p'), t') /\
       (executor_chat_id p = Some chat_id ->
        customer_chat_id p <> Some chat_id ->
          executor_chat_id p' = None /\ is_active p' = true) /\
       (~ (executor_chat_id p = Some chat_id /\
           customer_chat_id p <> Some chat_id) ->
        customer_chat_id p = Some chat_id ->
          customer_chat_id p' = None /\ is_active p' = true) /\
       (executor_chat_id p <> Some chat_id ->
        customer_chat_id p <> Some chat_id ->
          executor_chat_id p' = executor_chat_id p /\
          customer_chat_id p' = customer_chat_id p /\
          is_active p' = false)).
Proof.
  rewrite unlink_chat_run. split.
  - intros Hnone. apply get_none_inv in Hnone. now rewrite Hnone.
  - intros p Hp. apply get_some_inv in Hp as (r & Hr & ->).
    rewrite Hr. cbv zeta.
    match goal with
    | |- context [update_rows ?set slug t] =>
        pose proof (get_after_update set slug t r) as Hget
    end.
    eexists _, _. split; [reflexivity|].
    split; [apply Hget; [|exact Hr]|].
    + unlink_cases r chat_id; keeps_slug.
    + cbn. rewrite <- !eq_int_false_iff, <- !eq_int_iff.
      unlink_cases r chat_id; cbn; intuition congruence.
Qed.

End StoreProperties.

Section StoreFrame.

Implicit Types (t : Table) (p : Project).

(** C1, as the store has it. When the stored executor chat and the
    stored customer chat both equal the unlinked chat, both updates of
    [unlink_chat] run: the executor chat and the customer chat are both
    cleared and the project is active. *)
Theorem unlink_chat_tie slug chat_id t p :
  get slug t = (inr (Some p), t) ->
  executor_chat_id p = Some chat_id ->
  customer_chat_id p = Some chat_id ->
  exists p' t',
    unlink_chat slug chat_id t = (inr (Some p'), t') /\
    get slug t' = (inr (Some p'), t') /\
    executor_chat_id p' = None /\
    customer_chat_id p' = None /\
    is_active p' = true.
Proof.
  intros Hp He Hc. apply get_some_inv in Hp as (r & Hr & ->).
  cbn in He, Hc. apply eq_int_iff in He, Hc.
  rewrite unlink_chat_run, Hr, He, Hc. cbv zeta.
  eexists _, _. split; [reflexivity|].
  split; [|now repeat split].
  match goal with
  | |- context [update_rows ?set slug t] =>
      apply (get_after_update set slug t r); [keeps_slug | exact Hr]
  end.
Qed.

(** C9. A successful mutation touches only what it targets.  Whenever
    [bind_customer] returns on a known slug, the project it returns has
    the slug and the executor chat it had before (and it does return
    when the chat fits a signed 64-bit number); [unlink_chat] keeps the
    slug and every chat that differs from the unlinked one (both of them
    when the chat is neither); and [create_project], [bind_customer]
    and [unlink_chat] on one slug, whether they return or raise, leave
    what [get] returns for any other slug as it was. *)
Theorem mutations_frame slug chat_id t :
  (forall p, get slug t = (inr (Some p), t) ->
     (Py.fits_int64 chat_id = true ->
        exists p' t', bind_customer slug chat_id t = (inr (Some p'), t')) /\
     (forall found t',
        bind_customer slug chat_id t = (inr found, t') ->
        exists p',
          found = Some p' /\
          Storage.slug p' = Storage.slug p /\
          executor_chat_id p' = executor_chat_id p))
  /\
  (forall p, get slug t = (inr (Some p), t) ->
     exists p' t',
       unlink_chat slug chat_id t = (inr (Some p'), t') /\
       Storage.slug p' = Storage.slug p /\
       (executor_chat_id p <> Some chat_id ->
          executor_chat_id p' = executor_chat_id p) /\
       (customer_chat_id p <> Some chat_id ->
          customer_chat_id p' = customer_chat_id p))
  /\
  (forall slug', slug' <> slug ->
     fst (get slug' (snd (create_project slug chat_id t))) = fst (get slug' t) /\
     fst (get slug' (snd (bind_customer slug chat_id t))) = fst (get slug' t) /\
     fst (get slug' (snd (unlink_chat slug chat_id t))) = fst (get slug' t)).
Proof.
  rewrite create_project_run, bind_customer_run, unlink_chat_run.
  split; [|split].
  - intros p Hp. apply get_some_inv in Hp as (r & -> & ->).
    destruct (Py.fits_int64 chat_id); cbv zeta.
    + split; [intros _; now eexists _, _|].
      intros found t' [= <- <-]. eexists. now repeat split.
    + split; discriminate.
  - intros p Hp. apply get_some_inv in Hp as (r & -> & ->).
    eexists _, _. split; [reflexivity|]. cbn.
    rewrite <- !eq_int_false_iff.
    unlink_cases r chat_id; cbn; repeat split; congruence.
  - intros slug' Hne.
    destruct (row_where_slug slug t) as [r|] eqn:Hr;
      destruct (Py.fits_int64 chat_id); cbv zeta; cbn [snd].
    + split; [reflexivity|].
      split; apply get_other_after_update; try exact Hne.
      * keeps_slug.
      * unlink_cases r chat_id; keeps_slug.
    + split; [reflexivity|]. split; [reflexivity|].
      apply get_other_after_update; [|exact Hne].
      unlink_cases r chat_id; keeps_slug.
    + split; [|now split].
      now apply (get_other_after_insert slug).
    + now repeat split.
Qed.

Lemma StronglySorted_projects (rows : list Row) :
  StronglySorted row_le rows ->
  StronglySorted slug_le (map _row_to_project rows).
Proof.
  induction 1 as [|r rows _ IH Hall]; simpl; constructor; [exact IH|].
  apply Forall_map. exact Hall.
Qed.

(** C8. [list_projects] returns a list that holds exactly the
    projects of the table, in ascending order of slug, and leaves the
    table as it was, so that a second call right after the first
    returns the same list. *)
Theorem list_projects_sorted t :
  exists projects,
    list_projects t = (inr projects, t) /\
    Permutation projects (map _row_to_project t) /\
    StronglySorted slug_le projects /\
    (first <- list_projects ;;
     second <- list_projects ;;
     ret (first, second)) t = (inr (projects, projects), t).
Proof.
  exists (map _row_to_project (order_by_slug t)).
  split; [reflexivity|]. split; [|split; [|reflexivity]].
  - apply Permutation_map. symmetry. apply order_by_slug_perm.
  - apply StronglySorted_projects, order_by_slug_sorted.
Qed.

End StoreFrame.

(** ** The relay: what the handler computes *)

Section RelayRuns.

Implicit Types (t : Table) (p : Project) (m : Message) (u : User).

Lemma truthy_int_iff (o : option Z) :
  Py.truthy_int o = true <-> exists d, o = Some d /\ d <> 0.
Proof.
  destruct o as [d|]; simpl.
  - rewrite negb_true_iff, Z.eqb_neq. split.
    + intros Hd. now exists d.
    + now intros (d' & [= <-] & Hd).
  - split; [discriminate | now intros (d & Hd & _)].
Qed.

Lemma relay_text_destination p m target role :
  destination (relay_text p m target role) = Some target.
Proof. reflexivity. Qed.

Lemma relay_media_destination p m target role :
  destination (relay_media p m target role) = Some target.
Proof.
  unfold relay_media.
  destruct (photo m), (document m), (voice m), (audio m), (video m);
    reflexivity.
Qed.

Lemma forward_head transport p m target role :
  exists call rest,
    forward transport p m target role = call :: rest /\
    call = (if text_only m then relay_text p m target role
            else relay_media p m target role) /\
    destination call = Some target.
Proof.
  unfold forward.
  set (call := if text_only m then _ else _).
  assert (Hd : destination call = Some target).
  { subst call. destruct (text_only m);
      [apply relay_text_destination | apply relay_media_destination]. }
  destruct (transport call); eexists _, _; repeat split; exact Hd.
Qed.

Lemma relay_message_from_bot transport update m t :
  effective_message update = Some m ->
  from_bot m = true ->
  relay_message transport update t = (inr [], t).
Proof.
  intros Hm Hbot. unfold relay_message. rewrite Hm.
  destruct (effective_chat update); [now rewrite Hbot | reflexivity].
Qed.

Lemma relay_message_run transport update m chat t found :
  effective_message update = Some m ->
  effective_chat update = Some chat ->
  from_bot m = false ->
  find_by_chat (chat_id chat) t = (inr found, t) ->
  relay_message transport update t =
  (inr match found with
       | Some p =>
           if is_active p
           then match route p (chat_id chat) with
                | Some (target, role) => forward transport p m target role
                | None => []
                end
           else []
       | None => []
       end, t).
Proof.
  intros Hm Hchat Hbot Hfound. unfold relay_message.
  rewrite Hm, Hchat, Hbot. cbn [bind Monad_Db]. rewrite Hfound.
  destruct found as [p|]; [|reflexivity].
  destruct (is_active p); [|reflexivity]. cbn [negb].
  now destruct (route p (chat_id chat)) as [[target role]|].
Qed.

(** The three ways [route] can go. *)
Lemma route_cases p (s : Z) :
  (executor_chat_id p = Some s /\
   exists d, customer_chat_id p = Some d /\ d <> 0 /\
             route p s = Some (d, executor))
  \/
  (~ (executor_chat_id p = Some s /\ Py.truthy_int (customer_chat_id p) = true) /\
   customer_chat_id p = Some s /\
   exists d, executor_chat_id p = Some d /\ d <> 0 /\
             route p s = Some (d, customer))
  \/
  (~ (executor_chat_id p = Some s /\ Py.truthy_int (customer_chat_id p) = true) /\
   ~ (customer_chat_id p = Some s /\ Py.truthy_int (executor_chat_id p) = true) /\
   route p s = None).
Proof.
  unfold route. rewrite <- !eq_int_iff.
  destruct (Py.eq_int (executor_chat_id p) s) eqn:He,
           (Py.truthy_int (customer_chat_id p)) eqn:Htc; cbn [andb].
  1: { left. split; [reflexivity|].
       apply truthy_int_iff in Htc as (d & Hd & Hnz). rewrite Hd. now exists d. }
  all: right;
    destruct (Py.eq_int (customer_chat_id p) s) eqn:Hc,
             (Py.truthy_int (executor_chat_id p)) eqn:Hte; cbn [andb].
  all: try (right; repeat split; intros []; congruence).
  all: left; split; [intros []; congruence|]; split; [reflexivity|];
    apply truthy_int_iff in Hte as (d & Hd & Hnz); rewrite Hd; now exists d.
Qed.

End RelayRuns.

(** ** The relay router *)

(** Splits a conjunction of six clauses. *)
Ltac clauses := split; [|split; [|split; [|split; [|split]]]].

Section RelayProperties.

Implicit Types (t : Table) (p : Project) (m : Message) (u : User).

(** C3, as the handler has it.  For a message that is not written by a
    bot account, with [found] what [find_by_chat] returns for the source
    chat: something is sent exactly when a project is found, is active,
    and the source chat is one of its two chats while the other one is
    set to a non-zero identifier.  Nothing is sent when no project is
    found or the found project is inactive.  When the source is the
    executor chat and the customer chat is a non-zero identifier, the
    message goes to the customer chat with the executor role.  Otherwise,
    when the source is the customer chat and the executor chat is a
    non-zero identifier, it goes to the executor chat with the customer
    role.  In every other case nothing is sent. *)
Theorem relay_message_routing transport update m chat t found :
  effective_message update = Some m ->
  effective_chat update = Some chat ->
  from_bot m = false ->
  find_by_chat (chat_id chat) t = (inr found, t) ->
  let s := chat_id chat in
  let drops := relay_message transport update t = (inr [], t) in
  let forwards := fun p target role =>
    exists call rest,
      relay_message transport update t = (inr (call :: rest), t) /\
      call :: rest = forward transport p m target role /\
      destination call = Some target in
  (~ drops <->
     exists p, found = Some p /\ is_active p = true /\
       ((executor_chat_id p = Some s /\
         Py.truthy_int (customer_chat_id p) = true) \/
        (customer_chat_id p = Some s /\
         Py.truthy_int (executor_chat_id p) = true)))
  /\
  (found = None -> drops)
  /\
  (forall p, found = Some p -> is_active p = false -> drops)
  /\
  (forall p d, found = Some p -> is_active p = true ->
     executor_chat_id p = Some s -> customer_chat_id p = Some d -> d <> 0 ->
     forwards p d executor)
  /\
  (forall p d, found = Some p -> is_active p = true ->
     ~ (executor_chat_id p = Some s /\
        Py.truthy_int (customer_chat_id p) = true) ->
     customer_chat_id p = Some s -> executor_chat_id p = Some d -> d <> 0 ->
     forwards p d customer)
  /\
  (forall p, found = Some p ->
     ~ (executor_chat_id p = Some s /\
        Py.truthy_int (customer_chat_id p) = true) ->
     ~ (customer_chat_id p = Some s /\
        Py.truthy_int (executor_chat_id p) = true) ->
     drops).
Proof.
  intros Hm Hchat Hbot Hfound s drops forwards. subst drops forwards.
  rewrite (relay_message_run _ _ _ _ _ _ Hm Hchat Hbot Hfound). fold s.
  destruct found as [p|].
  2: { clauses.
       - split; [intros H; now contradiction H | now intros (p & [=] & _)].
       - reflexivity.
       - discriminate.
       - discriminate.
       - discriminate.
       - discriminate. }
  destruct (is_active p) eqn:Hact.
  - destruct (route_cases p s)
      as [(He & d & Hc & Hnz & Hr) | [(Hn & Hc & d & He & Hnz & Hr)
                                     | (Hn1 & Hn2 & Hr)]];
      rewrite Hr.
    + assert (Htc : Py.truthy_int (customer_chat_id p) = true)
        by (apply truthy_int_iff; eauto).
      destruct (forward_head transport p m d executor)
        as (call & rest & Hf & _ & Hd).
      clauses.
      * split; [intros _; exists p; tauto|]. rewrite Hf. intros _ [=].
      * discriminate.
      * intros q [= <-] Hq. congruence.
      * intros q d' [= <-] _ _ Hc' _.
        assert (d' = d) as -> by congruence. rewrite Hf. eauto.
      * intros q d' [= <-] _ Hn. tauto.
      * intros q [= <-] Hn. tauto.
    + assert (Hte : Py.truthy_int (executor_chat_id p) = true)
        by (apply truthy_int_iff; eauto).
      destruct (forward_head transport p m d customer)
        as (call & rest & Hf & _ & Hd).
      clauses.
      * split; [intros _; exists p; tauto|]. rewrite Hf. intros _ [=].
      * discriminate.
      * intros q [= <-] Hq. congruence.
      * intros q d' [= <-] _ He' Hc' Hnz'. exfalso. apply Hn.
        split; [exact He'|]. apply truthy_int_iff. eauto.
      * intros q d' [= <-] _ _ _ He' _.
        assert (d' = d) as -> by congruence. rewrite Hf. eauto.
      * intros q [= <-] _ Hn'. tauto.
    + clauses.
      * split; [intros H; now contradiction H|].
        intros (q & [= <-] & _ & [H|H]); tauto.
      * discriminate.
      * reflexivity.
      * intros q d [= <-] _ He Hc Hnz. exfalso. apply Hn1.
        split; [exact He|]. apply truthy_int_iff. eauto.
      * intros q d [= <-] _ _ Hc He Hnz. exfalso. apply Hn2.
        split; [exact Hc|]. apply truthy_int_iff. eauto.
      * reflexivity.
  - clauses.
    + split; [intros H; now contradiction H|].
      intros (q & [= <-] & Hq & _). congruence.
    + discriminate.
    + reflexivity.
    + intros q d [= <-]. congruence.
    + intros q d [= <-]. congruence.
    + reflexivity.
Qed.

(** C2, as the handler has it.  When the router forwards a message
    that carries an attachment, the call made is the one of the first
    attachment present among photo, document, voice, audio and video,
    with that attachment's file (the last size of a photo), sent to the
    routed chat.  Its caption is the role label, a space and the
    message's caption when that caption is not empty, and no caption at
    all otherwise. *)
Theorem relay_media_forwarding transport update m chat t p target role :
  effective_message update = Some m ->
  effective_chat update = Some chat ->
  from_bot m = false ->
  find_by_chat (chat_id chat) t = (inr (Some p), t) ->
  is_active p = true ->
  route p (chat_id chat) = Some (target, role) ->
  let forwarded_caption :=
    match caption m with
    | Some c => if (c =? "")%string then None
                else Some (action_labels role ++ " " ++ c)%string
    | None => None
    end in
  exists call rest,
    relay_message transport update t = (inr (call :: rest), t) /\
    (forall size sizes, photo m = size :: sizes ->
       call = send_photo target (file_id (last sizes size)) forwarded_caption) /\
    (forall d, photo m = [] -> document m = Some d ->
       call = send_document target (file_id d) forwarded_caption) /\
    (forall v, photo m = [] -> document m = None -> voice m = Some v ->
       call = send_voice target (file_id v) forwarded_caption) /\
    (forall a, photo m = [] -> document m = None -> voice m = None ->
       audio m = Some a ->
       call = send_audio target (file_id a) forwarded_caption) /\
    (forall v, photo m = [] -> document m = None -> voice m = None ->
       audio m = None -> video m = Some v ->
       call = send_video target (file_id v) forwarded_caption).
Proof.
  intros Hm Hchat Hbot Hfound Hact Hroute cap.
  rewrite (relay_message_run _ _ _ _ _ _ Hm Hchat Hbot Hfound), Hact, Hroute.
  destruct (forward_head transport p m target role)
    as (call & rest & Hf & Hcall & _).
  exists call, rest. rewrite Hf. split; [reflexivity|].
  subst call cap. unfold text_only, relay_media, prefixed.
  split; [|split; [|split; [|split]]].
  - intros size sizes ->. cbn. now rewrite andb_false_r.
  - intros d -> ->. cbn. now rewrite andb_false_r.
  - intros v -> -> ->. cbn. now rewrite andb_false_r.
  - intros a -> -> -> ->. cbn. now rewrite andb_false_r.
  - intros v -> -> -> -> ->. cbn. now rewrite andb_false_r.
Qed.

(** C10. A message whose author is marked as a bot makes the handler
    send nothing, whatever the table holds. *)
Theorem bot_messages_never_routed transport update m u t :
  effective_message update = Some m ->
  from_user m = Some u ->
  is_bot u = true ->
  relay_message transport update t = (inr [], t).
Proof.
  intros Hm Hu Hbot. apply (relay_message_from_bot _ _ m); [exact Hm|].
  unfold from_bot. now rewrite Hu.
Qed.

End RelayProperties.

(** The account the relay runs under.  The transport marks every bot
    account as a bot, the relay's own included. *)
Section RelayIdentity.

Variable me : User.
Hypothesis me_is_bot : is_bot me = true.

(** C7. A message written by the relay's own account makes the handler
    send nothing, whatever the table holds and whichever chat the
    message is in. *)
Theorem own_messages_never_routed transport update m t :
  effective_message update = Some m ->
  from_user m = Some me ->
  relay_message transport update t = (inr [], t).
Proof.
  intros Hm Hme. apply (relay_message_from_bot _ _ m); [exact Hm|].
  unfold from_bot. now rewrite Hme.
Qed.

End RelayIdentity.

(** ** The properties on the scenario *)

Section OnTheScenario.

Import Scenario.

(** C1, the claim as written fails.  Project ["q"] has both chats equal
    to 5; unlinking chat 5 clears its customer chat as well, where the
    claim has it unchanged. *)
Lemma unlink_chat_tie_counterexample :
  get "q" tied = (inr (Some q_tied), tied) /\
  fst (unlink_chat "q" 5 tied) =
    inr (Some {| slug := "q"; customer_chat_id := None;
                 executor_chat_id := None; is_active := true |}) /\
  (None : option Z) <> customer_chat_id q_tied.
Proof. repeat split. discriminate. Qed.

Lemma unlink_chat_tie_witness :
  exists p' t',
    unlink_chat "q" 5 tied = (inr (Some p'), t') /\
    get "q" t' = (inr (Some p'), t') /\
    executor_chat_id p' = None /\
    customer_chat_id p' = None /\
    is_active p' = true.
Proof. apply (unlink_chat_tie "q" 5 tied q_tied); reflexivity. Defined.

Lemma unlink_chat_policy_witness :
  unlink_chat "x" 111 bound = (inl (NotFound "x"), bound) /\
  (exists p' t',
     unlink_chat "p" 111 bound = (inr (Some p'), t') /\
     executor_chat_id p' = None /\ is_active p' = true) /\
  (exists p' t',
     unlink_chat "p" 222 bound = (inr (Some p'), t') /\
     customer_chat_id p' = None /\ is_active p' = true) /\
  (exists p' t',
     unlink_chat "p" 999 bound = (inr (Some p'), t') /\
     executor_chat_id p' = Some 111 /\ customer_chat_id p' = Some 222 /\
     is_active p' = false).
Proof.
  split; [|split; [|split]].
  - apply (proj1 (unlink_chat_policy "x" 111 bound)). reflexivity.
  - destruct (proj2 (unlink_chat_policy "p" 111 bound) p_bound eq_refl)
      as (p' & t' & Hrun & _ & Hexecutor & _).
    exists p', t'. split; [exact Hrun|].
    apply Hexecutor; [reflexivity | discriminate].
  - destruct (proj2 (unlink_chat_policy "p" 222 bound) p_bound eq_refl)
      as (p' & t' & Hrun & _ & _ & Hcustomer & _).
    exists p', t'. split; [exact Hrun|].
    apply Hcustomer; [|reflexivity]. intros [H _]. discriminate H.
  - destruct (proj2 (unlink_chat_policy "p" 999 bound) p_bound eq_refl)
      as (p' & t' & Hrun & _ & _ & _ & Hstale).
    exists p', t'. split; [exact Hrun|].
    apply Hstale; discriminate.
Defined.

(** C5, the claim as written fails.  The slug ["p"] is free in the
    empty table, yet [create_project] with the executor chat 2^63
    persists nothing: binding the chat to the insert raises
    [OverflowError]. *)
Lemma create_project_counterexample :
  get "p" empty = (inr None, empty) /\
  create_project "p" 9223372036854775808 empty = (inl OverflowError, empty) /\
  get "p" (snd (create_project "p" 9223372036854775808 empty)) =
    (inr None, empty).
Proof. repeat split. Qed.

Lemma create_project_spec_witness :
  create_project "p" 333 created = (inl (AlreadyExists "p"), created) /\
  (exists t',
     create_project "p" 111 empty = (inr p_created, t') /\
     get "p" t' = (inr (Some p_created), t')) /\
  create_project "p" 9223372036854775808 empty = (inl OverflowError, empty).
Proof.
  split; [|split].
  - apply (proj1 (create_project_spec "p" 333 created) p_created). reflexivity.
  - apply (proj1 (proj2 (create_project_spec "p" 111 empty))); reflexivity.
  - apply (proj2 (proj2 (create_project_spec "p" 9223372036854775808 empty)));
      reflexivity.
Defined.

Lemma bind_customer_spec_witness :
  fst (bind_customer "x" 222 created) = inl (NotFound "x") /\
  (exists p' t', bind_customer "p" 333 bound = (inr (Some p'), t')) /\
  (exists p',
     Some p_bound = Some p' /\
     get "p" bound = (inr (Some p'), bound) /\
     customer_chat_id p' = Some 222 /\
     is_active p' = true) /\
  bind_customer "p" 9223372036854775808 bound = (inl OverflowError, bound).
Proof.
  pose proof (bind_customer_spec "x" 222 created) as (Hiff & _).
  pose proof (bind_customer_spec "p" 333 bound) as (_ & _ & _ & Hreturns & _).
  pose proof (bind_customer_spec "p" 222 created) as (_ & _ & Hsuccess & _).
  pose proof (bind_customer_spec "p" 9223372036854775808 bound)
    as (_ & _ & _ & _ & Hoverflow).
  split; [|split; [|split]].
  - apply Hiff. reflexivity.
  - apply (Hreturns p_bound); reflexivity.
  - apply (Hsuccess (Some p_bound) bound). reflexivity.
  - apply (Hoverflow p_bound); reflexivity.
Defined.

Lemma mutations_frame_witness :
  (exists p' t', bind_customer "p" 333 bound = (inr (Some p'), t')) /\
  (exists p',
     Some p_bound = Some p' /\
     slug p' = slug p_created /\
     executor_chat_id p' = executor_chat_id p_created) /\
  (exists p' t',
     unlink_chat "p" 111 bound = (inr (Some p'), t') /\
     slug p' = "p" /\ customer_chat_id p' = Some 222) /\
  fst (get "p" (snd (unlink_chat "q" 111 bound))) = fst (get "p" bound).
Proof.
  pose proof (mutations_frame "p" 333 bound) as (Hbind & _).
  pose proof (mutations_frame "p" 222 created) as (Hkeeps & _).
  pose proof (mutations_frame "p" 111 bound) as (_ & Hunlink & _).
  pose proof (mutations_frame "q" 111 bound) as (_ & _ & Hother).
  split; [|split; [|split]].
  - apply (Hbind p_bound eq_refl). reflexivity.
  - apply (proj2 (Hkeeps p_created eq_refl) (Some p_bound) bound).
    reflexivity.
  - destruct (Hunlink p_bound eq_refl)
      as (p' & t' & Hrun & Hslug & _ & Hcustomer).
    exists p', t'. split; [exact Hrun|]. split; [exact Hslug|].
    apply Hcustomer. discriminate.
  - apply Hother. discriminate.
Defined.

(** C2, the claim as written fails.  A photo without caption and
    without text, sent by a person in the executor chat of ["p"], is
    forwarded as a photo with no caption, not with the role label and a
    placeholder. *)
Lemma relay_media_counterexample :
  exists call,
    relay_message delivering
      (update_in 111 (photo_message (Some person) None)) bound =
    (inr [call], bound) /\
    call = send_photo 222 "large" None /\
    call <> send_photo 222 "large"
              (Some (prefixed (action_labels executor)
                              "(неизвестный тип сообщения)")).
Proof.
  eexists. split; [reflexivity|]. split; [reflexivity | discriminate].
Qed.

Lemma relay_media_forwarding_witness :
  exists call rest,
    relay_message delivering
      (update_in 111 (photo_message (Some person) (Some "look"))) bound =
    (inr (call :: rest), bound) /\
    call = send_photo 222 "large"
             (Some (action_labels executor ++ " look")%string).
Proof.
  destruct (relay_media_forwarding delivering
              (update_in 111 (photo_message (Some person) (Some "look")))
              (photo_message (Some person) (Some "look"))
              {| chat_id := 111 |} bound p_bound 222 executor
              eq_refl eq_refl eq_refl eq_refl eq_refl eq_refl)
    as (call & rest & Hrun & Hphoto & _).
  exists call, rest. split; [exact Hrun|].
  exact (Hphoto _ _ eq_refl).
Defined.

(** C3, the claim as written fails, twice.  A message written by a bot
    account in the executor chat of the active project ["p"], whose
    customer chat is set, is not forwarded.  And a message written by a
    person in the executor chat of the active project ["z"], whose
    customer chat is set to 0, is not forwarded either. *)
Lemma relay_message_counterexample :
  (find_by_chat 111 bound = (inr (Some p_bound), bound) /\
   relay_message delivering
     (update_in 111 (text_message (Some some_bot) "hi")) bound =
   (inr [], bound))
  /\
  (find_by_chat 111 zero_bound = (inr (Some z_bound), zero_bound) /\
   relay_message delivering
     (update_in 111 (text_message (Some person) "hi")) zero_bound =
   (inr [], zero_bound)).
Proof. repeat split. Qed.

Lemma relay_message_routing_witness :
  (exists call rest,
     relay_message delivering
       (update_in 111 (text_message (Some person) "hi")) bound =
     (inr (call :: rest), bound) /\
     call :: rest =
       forward delivering p_bound (text_message (Some person) "hi")
         222 executor /\
     destination call = Some 222) /\
  (exists call rest,
     relay_message delivering
       (update_in 222 (text_message (Some person) "hi")) bound =
     (inr (call :: rest), bound) /\
     call :: rest =
       forward delivering p_bound (text_message (Some person) "hi")
         111 customer /\
     destination call = Some 111) /\
  relay_message delivering
    (update_in 111 (text_message (Some person) "hi")) created =
  (inr [], created).
Proof.
  split; [|split].
  - pose proof (relay_message_routing delivering
                  (update_in 111 (text_message (Some person) "hi"))
                  _ _ bound (Some p_bound)
                  eq_refl eq_refl eq_refl eq_refl) as H.
    cbv zeta in H. destruct H as (_ & _ & _ & Hexecutor & _).
    apply (Hexecutor p_bound 222); try reflexivity. discriminate.
  - pose proof (relay_message_routing delivering
                  (update_in 222 (text_message (Some person) "hi"))
                  _ _ bound (Some p_bound)
                  eq_refl eq_refl eq_refl eq_refl) as H.
    cbv zeta in H. destruct H as (_ & _ & _ & _ & Hcustomer & _).
    apply (Hcustomer p_bound 111); try reflexivity.
    + intros [H _]. discriminate H.
    + discriminate.
  - pose proof (relay_message_routing delivering
                  (update_in 111 (text_message (Some person) "hi"))
                  _ _ created (Some p_created)
                  eq_refl eq_refl eq_refl eq_refl) as H.
    cbv zeta in H. destruct H as (_ & _ & _ & _ & _ & Hnone).
    apply (Hnone p_created); [reflexivity | intros [_ H] | intros [H _]];
      discriminate H.
Defined.

Lemma bot_messages_never_routed_witness :
  relay_message delivering
    (update_in 111 (text_message (Some some_bot) "hi")) bound =
  (inr [], bound).
Proof.
  apply (bot_messages_never_routed _ _
           (text_message (Some some_bot) "hi") some_bot); reflexivity.
Defined.

Lemma own_messages_never_routed_witness :
  relay_message delivering
    (update_in 222 (text_message (Some some_bot) "hi")) bound =
  (inr [], bound).
Proof.
  apply (own_messages_never_routed some_bot eq_refl _ _
           (text_message (Some some_bot) "hi")); reflexivity.
Defined.

End OnTheScenario.

(** * Further properties of the store *)

Section StoreTables.

Implicit Types (t : Table) (r : Row) (p : Project) (set : Row -> Row).

Lemma update_rows_slugs set slug t :
  (forall r, col_slug (set r) = col_slug r) ->
  map col_slug (update_rows set slug t) = map col_slug t.
Proof.
  intros Hset. unfold update_rows. rewrite map_map. apply map_ext.
  intros r. destruct (col_slug r =? slug)%string; [apply Hset | reflexivity].
Qed.

Lemma update_rows_ext set1 set2 slug t :
  (forall r, set1 r = set2 r) ->
  update_rows set1 slug t = update_rows set2 slug t.
Proof.
  intros Hext. unfold update_rows. apply map_ext.
  intros r. now rewrite Hext.
Qed.

Lemma row_where_slug_none slug t :
  row_where_slug slug t = None <-> ~ In slug (map col_slug t).
Proof.
  unfold row_where_slug. induction t as [|r t IH]; simpl.
  - tauto.
  - destruct (String.eqb_spec (col_slug r) slug) as [Hr|Hr].
    + split; [discriminate | tauto].
    + rewrite IH. tauto.
Qed.

Lemma row_where_slug_unique t r :
  NoDup (map col_slug t) -> In r t -> row_where_slug (col_slug r) t = Some r.
Proof.
  unfold row_where_slug. induction t as [|r' t IH]; simpl; [tauto|].
  intros Hnd [-> | Hin].
  - now rewrite String.eqb_refl.
  - inversion Hnd as [|? ? Hnotin Hnd']; subst.
    destruct (String.eqb_spec (col_slug r') (col_slug r)) as [Heq|_].
    + exfalso. apply Hnotin. rewrite Heq. now apply in_map.
    + now apply IH.
Qed.

(** The net assignment of [unlink_chat] on the row [r] it selected. *)
Lemma unlink_assignment_slug (chat_id : Z) r r' :
  col_slug
    (if Py.eq_int (col_executor_chat_id r) chat_id
     then if Py.eq_int (col_customer_chat_id r) chat_id
          then set_column_and_activate customer_chat_id_column None
                 (set_column_and_activate executor_chat_id_column None r')
          else set_column_and_activate executor_chat_id_column None r'
     else if Py.eq_int (col_customer_chat_id r) chat_id
          then set_column_and_activate customer_chat_id_column None r'
          else set_inactive r') = col_slug r'.
Proof. unlink_cases r chat_id; keeps_slug. Qed.

(** X1. No method of the store deletes or renames a project:
    [bind_customer] and [unlink_chat] leave the sequence of stored slugs
    as it was, and [create_project] appends its slug when it succeeds and
    changes nothing when it raises. *)
Theorem store_keeps_slugs slug chat_id t :
  map col_slug (snd (bind_customer slug chat_id t)) = map col_slug t /\
  map col_slug (snd (unlink_chat slug chat_id t)) = map col_slug t /\
  match fst (create_project slug chat_id t) with
  | inl _ => snd (create_project slug chat_id t) = t
  | inr _ =>
      map col_slug (snd (create_project slug chat_id t)) =
      map col_slug t ++ [slug]
  end.
Proof.
  rewrite bind_customer_run, unlink_chat_run, create_project_run.
  destruct (row_where_slug slug t) as [r|];
    destruct (Py.fits_int64 chat_id); cbv zeta; cbn [fst snd].
  - split; [|split; [|reflexivity]]; apply update_rows_slugs.
    + keeps_slug.
    + intros r'. apply unlink_assignment_slug.
  - split; [reflexivity|]. split; [|reflexivity].
    apply update_rows_slugs. intros r'. apply unlink_assignment_slug.
  - split; [reflexivity|]. split; [reflexivity|]. now rewrite map_app.
  - now repeat split.
Qed.

(** X2. The slugs of the table stay pairwise distinct under every
    method of the store: the check before the insert keeps the primary
    key unique. *)
Theorem store_keeps_slugs_unique slug chat_id t :
  NoDup (map col_slug t) ->
  NoDup (map col_slug (snd (create_project slug chat_id t))) /\
  NoDup (map col_slug (snd (bind_customer slug chat_id t))) /\
  NoDup (map col_slug (snd (unlink_chat slug chat_id t))).
Proof.
  intros Hnd.
  rewrite bind_customer_run, unlink_chat_run, create_project_run.
  destruct (row_where_slug slug t) as [r|] eqn:Hr;
    destruct (Py.fits_int64 chat_id); cbv zeta; cbn [fst snd].
  - split; [exact Hnd|].
    split; rewrite update_rows_slugs; try exact Hnd.
    + keeps_slug.
    + intros r'. apply unlink_assignment_slug.
  - split; [exact Hnd|]. split; [exact Hnd|].
    rewrite update_rows_slugs; [exact Hnd|].
    intros r'. apply unlink_assignment_slug.
  - split; [|now split].
    rewrite map_app. cbn [map col_slug].
    apply NoDup_app; [exact Hnd | repeat constructor; intros [] |].
    intros s Hin [<- | []]. now apply row_where_slug_none in Hr.
  - now repeat split.
Qed.

(** X3. A slug can be created once: after a first [create_project]
    that returned or raised the already-exists error (that is, did not
    stop at a chat that does not fit a signed 64-bit number), a second one
    for the same slug, with any chat, raises the already-exists error and
    leaves the table as the first one left it. *)
Theorem create_project_twice slug chat_id chat_id' t :
  fst (create_project slug chat_id t) <> inl OverflowError ->
  let t1 := snd (create_project slug chat_id t) in
  create_project slug chat_id' t1 = (inl (AlreadyExists slug), t1).
Proof.
  cbv zeta. rewrite (create_project_run slug chat_id t).
  destruct (row_where_slug slug t) as [r|] eqn:Hr; cbn [fst snd].
  - intros _. now rewrite create_project_run, Hr.
  - destruct (Py.fits_int64 chat_id); cbn [fst snd]; [|congruence].
    intros _.
    now rewrite create_project_run, (row_where_slug_insert slug), Hr,
      String.eqb_refl.
Qed.

(** X4. The last [bind_customer] wins on the whole table: when the
    second customer chat fits a signed 64-bit number, binding it right
    after a first bind gives the result and the table of binding it
    alone. *)
Theorem bind_customer_last_wins slug chat_id chat_id' t :
  Py.fits_int64 chat_id' = true ->
  bind_customer slug chat_id' (snd (bind_customer slug chat_id t)) =
  bind_customer slug chat_id' t.
Proof.
  intros Hfits. rewrite (bind_customer_run slug chat_id t).
  destruct (row_where_slug slug t) as [r|] eqn:Hr; [|reflexivity].
  destruct (Py.fits_int64 chat_id); cbv zeta; cbn [snd]; [|reflexivity].
  rewrite !bind_customer_run, row_where_slug_update, String.eqb_refl, Hr,
    Hfits by keeps_slug.
  cbv zeta. cbn [option_map]. f_equal.
  rewrite update_rows_twice by keeps_slug.
  now apply update_rows_ext.
Qed.

(** X5. [unlink_chat] is not idempotent.  After a first unlink of a
    chat from a known project, neither chat of the project is that chat
    any more; so a second unlink of the same chat is a stale one: it
    returns the project with the same two chats and inactive. *)
Theorem unlink_chat_twice slug chat_id t p :
  get slug t = (inr (Some p), t) ->
  exists p1 t1 p2 t2,
    unlink_chat slug chat_id t = (inr (Some p1), t1) /\
    executor_chat_id p1 <> Some chat_id /\
    customer_chat_id p1 <> Some chat_id /\
    unlink_chat slug chat_id t1 = (inr (Some p2), t2) /\
    executor_chat_id p2 = executor_chat_id p1 /\
    customer_chat_id p2 = customer_chat_id p1 /\
    is_active p2 = false.
Proof.
  intros Hp. apply get_some_inv in Hp as (r & Hr & ->).
  rewrite unlink_chat_run, Hr. cbv zeta.
  setoid_rewrite unlink_chat_run.
  setoid_rewrite <- eq_int_false_iff.
  unlink_cases r chat_id; eexists _, _, _, _;
    (split; [reflexivity|]);
    rewrite row_where_slug_update, String.eqb_refl, Hr by keeps_slug;
    cbn; rewrite ?He, ?Hc; cbn; repeat split; reflexivity.
Qed.

End StoreTables.

Section StoreLookups.

Implicit Types (t : Table) (r : Row) (p : Project).

Lemma has_chat_iff (chat_id : Z) r :
  Py.eq_int (col_executor_chat_id r) chat_id
  || Py.eq_int (col_customer_chat_id r) chat_id = true <->
  col_executor_chat_id r = Some chat_id \/ col_customer_chat_id r = Some chat_id.
Proof. now rewrite orb_true_iff, !eq_int_iff. Qed.

Lemma row_where_chat_first (chat_id : Z) (before after : list Row) r :
  (forall r', In r' before ->
     col_executor_chat_id r' <> Some chat_id /\
     col_customer_chat_id r' <> Some chat_id) ->
  col_executor_chat_id r = Some chat_id \/ col_customer_chat_id r = Some chat_id ->
  row_where_chat chat_id (before ++ r :: after) = Some r.
Proof.
  intros Hbefore Hr. unfold row_where_chat.
  induction before as [|r' before IH]; simpl.
  - apply has_chat_iff in Hr. now rewrite Hr.
  - destruct (Py.eq_int (col_executor_chat_id r') chat_id
              || Py.eq_int (col_customer_chat_id r') chat_id) eqn:Hr'.
    + apply has_chat_iff in Hr'.
      destruct (Hbefore r' (or_introl eq_refl)). tauto.
    + apply IH. intros r'' Hin. apply Hbefore. now right.
Qed.

(** X6. [find_by_chat] answers with a stored project that has the chat
    as executor chat or as customer chat; it answers [None] exactly when
    the chat fits a signed 64-bit number and no stored project has it;
    among several projects with the chat it answers with the one created
    first; and for a chat that does not fit it raises [OverflowError]. *)
Theorem find_by_chat_spec (chat_id : Z) t :
  (forall p, find_by_chat chat_id t = (inr (Some p), t) ->
     In p (map _row_to_project t) /\
     (executor_chat_id p = Some chat_id \/ customer_chat_id p = Some chat_id))
  /\
  (find_by_chat chat_id t = (inr None, t) <->
     Py.fits_int64 chat_id = true /\
     forall p, In p (map _row_to_project t) ->
       executor_chat_id p <> Some chat_id /\ customer_chat_id p <> Some chat_id)
  /\
  (forall before r after,
     Py.fits_int64 chat_id = true ->
     t = before ++ r :: after ->
     (forall r', In r' before ->
        col_executor_chat_id r' <> Some chat_id /\
        col_customer_chat_id r' <> Some chat_id) ->
     col_executor_chat_id r = Some chat_id \/
     col_customer_chat_id r = Some chat_id ->
     find_by_chat chat_id t = (inr (Some (_row_to_project r)), t))
  /\
  (Py.fits_int64 chat_id = false ->
     find_by_chat chat_id t = (inl OverflowError, t)).
Proof.
  rewrite find_by_chat_run.
  destruct (Py.fits_int64 chat_id).
  2: { split; [discriminate|]. split; [split; [discriminate | now intros []]|].
       split; [discriminate | reflexivity]. }
  split; [|split; [|split; [|discriminate]]].
  - intros p Hp.
    destruct (row_where_chat chat_id t) as [r|] eqn:Hr; [|discriminate].
    injection Hp as <-. apply find_some in Hr as [Hin Hr].
    split; [now apply in_map|]. now apply has_chat_iff in Hr.
  - split.
    + intros Hnone. split; [reflexivity|]. intros p Hin.
      destruct (row_where_chat chat_id t) as [r|] eqn:Hr; [discriminate|].
      apply in_map_iff in Hin as (r & <- & Hin).
      pose proof (find_none _ _ Hr r Hin) as Hno. cbn beta in Hno.
      apply orb_false_iff in Hno as [He Hc].
      now apply eq_int_false_iff in He, Hc.
    + intros [_ Hall].
      destruct (row_where_chat chat_id t) as [r|] eqn:Hr; [|reflexivity].
      apply find_some in Hr as [Hin Hr]. apply has_chat_iff in Hr.
      destruct (Hall (_row_to_project r) (in_map _ _ _ Hin)). cbn in *. tauto.
  - intros before r after _ -> Hbefore Hr.
    now rewrite (row_where_chat_first chat_id before after r).
Qed.

(** X7. While slugs are distinct, [list_projects] and [get] agree: a
    project is in the list exactly when [get] of its slug returns it. *)
Theorem list_projects_agrees_with_get t p :
  NoDup (map col_slug t) ->
  ((exists projects, list_projects t = (inr projects, t) /\ In p projects) <->
   get (slug p) t = (inr (Some p), t)).
Proof.
  intros Hnd. rewrite list_projects_run, get_run. split.
  - intros (projects & [= <-] & Hin).
    apply in_map_iff in Hin as (r & <- & Hin).
    apply (Permutation_in _ (Permutation_sym (order_by_slug_perm t))) in Hin.
    cbn [slug _row_to_project]. now rewrite row_where_slug_unique.
  - intros Hget. eexists. split; [reflexivity|].
    destruct (row_where_slug (slug p) t) as [r|] eqn:Hr; [|discriminate].
    injection Hget as <-. apply find_some in Hr as [Hin _].
    apply in_map. now apply (Permutation_in _ (order_by_slug_perm t)).
Qed.

Lemma sorted_rows_unique (l1 : list Row) :
  forall l2,
    StronglySorted row_le l1 -> StronglySorted row_le l2 ->
    Permutation l1 l2 -> NoDup (map col_slug l1) -> l1 = l2.
Proof.
  induction l1 as [|a l1 IH]; intros l2 Hs1 Hs2 Hperm Hnd.
  - now apply Permutation_nil in Hperm.
  - destruct l2 as [|b l2];
      [now apply Permutation_sym, Permutation_nil in Hperm|].
    inversion Hs1 as [|? ? Hs1' Hall1]; subst.
    inversion Hs2 as [|? ? Hs2' Hall2]; subst.
    inversion Hnd as [|? ? Hnotin Hnd']; subst.
    assert (Hab : a = b).
    { assert (Ha : In a (b :: l2))
        by (apply (Permutation_in _ Hperm); now left).
      assert (Hb : In b (a :: l1))
        by (apply (Permutation_in _ (Permutation_sym Hperm)); now left).
      destruct Ha as [Ha | Ha]; [now symmetry|].
      destruct Hb as [Hb | Hb]; [exact Hb|].
      exfalso. apply Hnotin.
      rewrite Forall_forall in Hall1, Hall2.
      rewrite (String.leb_antisym _ _ (Hall1 b Hb) (Hall2 a Ha)).
      now apply in_map. }
    subst b. f_equal.
    apply IH; try assumption. now apply Permutation_cons_inv in Hperm.
Qed.

(** X8. While slugs are distinct, what [list_projects] returns does
    not depend on the order in which the projects were created: two
    tables with the same rows list the same sequence. *)
Theorem list_projects_canonical t t' :
  Permutation t t' ->
  NoDup (map col_slug t) ->
  fst (list_projects t) = fst (list_projects t').
Proof.
  intros Hperm Hnd. rewrite !list_projects_run. cbn [fst]. do 2 f_equal.
  apply sorted_rows_unique; try apply order_by_slug_sorted.
  - rewrite <- (order_by_slug_perm t), <- (order_by_slug_perm t').
    exact Hperm.
  - apply (Permutation_NoDup (l := map col_slug t)); [|exact Hnd].
    apply Permutation_map, order_by_slug_perm.
Qed.

End StoreLookups.

(** * Further properties of the relay *)

Section RelayCalls.

Implicit Types (t : Table) (p : Project) (m : Message).

Lemma relay_message_overflow transport update m chat t :
  effective_message update = Some m ->
  effective_chat update = Some chat ->
  from_bot m = false ->
  Py.fits_int64 (chat_id chat) = false ->
  relay_message transport update t = (inl OverflowError, t).
Proof.
  intros Hm Hchat Hbot Hfits. unfold relay_message.
  rewrite Hm, Hchat, Hbot. cbn [bind Monad_Db].
  now rewrite find_by_chat_run, Hfits.
Qed.

(** X9. The relay handler only reads the store.  The one exception it
    lets out is the [OverflowError] of the lookup, for a message not
    written by a bot in a chat whose identifier does not fit a signed
    64-bit number.  In every other case it returns, having made no call,
    or one send call to a chat, followed by the failure notice to the
    source chat exactly when the transport rejects that send; a rejected
    notice is not followed by anything. *)
Theorem relay_message_calls transport update t :
  (relay_message transport update t = (inl OverflowError, t) /\
   exists m chat,
     effective_message update = Some m /\
     effective_chat update = Some chat /\
     from_bot m = false /\
     Py.fits_int64 (chat_id chat) = false)
  \/
  (exists calls,
     relay_message transport update t = (inr calls, t) /\
     (calls = [] \/
      exists call target,
        destination call = Some target /\
        calls =
          if transport call then [call]
          else [call; reply_text
                  "Не удалось переслать сообщение. Проверьте настройки бота."])).
Proof.
  assert (Hnothing : relay_message transport update t = (inr [], t) ->
            exists calls, relay_message transport update t = (inr calls, t) /\
              (calls = [] \/
               exists call target,
                 destination call = Some target /\
                 calls =
                   if transport call then [call]
                   else [call; reply_text
                           "Не удалось переслать сообщение. Проверьте настройки бота."]))
    by (intros ->; exists []; split; [reflexivity | now left]).
  destruct (effective_message update) as [m|] eqn:Hm;
    [|right; apply Hnothing; unfold relay_message; now rewrite Hm].
  destruct (effective_chat update) as [chat|] eqn:Hchat;
    [|right; apply Hnothing; unfold relay_message; now rewrite Hm, Hchat].
  destruct (from_bot m) eqn:Hbot;
    [right; apply Hnothing, (relay_message_from_bot _ _ m t Hm Hbot)|].
  destruct (Py.fits_int64 (chat_id chat)) eqn:Hfits.
  2: { left. split; [now apply (relay_message_overflow _ _ m chat)|].
       now exists m, chat. }
  right.
  pose proof (find_by_chat_run (chat_id chat) t) as Hfound.
  rewrite Hfits in Hfound.
  rewrite (relay_message_run _ _ _ _ _ _ Hm Hchat Hbot Hfound) in *.
  destruct (option_map _ _) as [p|]; [|now apply Hnothing].
  destruct (is_active p); [|now apply Hnothing].
  destruct (route p (chat_id chat)) as [[target role]|];
    [|now apply Hnothing].
  eexists. split; [reflexivity|]. right.
  destruct (forward_head transport p m target role)
    as (call & rest & Hf & Hcall & Hd).
  exists call, target. split; [exact Hd|].
  unfold forward in *. rewrite <- Hcall in *.
  now destruct (transport call).
Qed.

(** X10. A routed message without attachment goes out as plain text
    under the role label: its text when that is not empty; otherwise its
    caption when that is not empty; otherwise the placeholder for an
    unknown kind of message. *)
Theorem relay_plain_forwarding transport update m chat t p target role :
  effective_message update = Some m ->
  effective_chat update = Some chat ->
  from_bot m = false ->
  find_by_chat (chat_id chat) t = (inr (Some p), t) ->
  is_active p = true ->
  route p (chat_id chat) = Some (target, role) ->
  photo m = [] -> document m = None -> voice m = None ->
  audio m = None -> video m = None ->
  exists call rest,
    relay_message transport update t = (inr (call :: rest), t) /\
    (forall body, text m = Some body -> body <> "" ->
       call = send_message target (action_labels role ++ " " ++ body)%string) /\
    (forall c, text m = None \/ text m = Some "" ->
       caption m = Some c -> c <> "" ->
       call = send_message target (action_labels role ++ " " ++ c)%string) /\
    (text m = None \/ text m = Some "" ->
     caption m = None \/ caption m = Some "" ->
       call = send_message target
                (action_labels role ++ " " ++ "(неизвестный тип сообщения)")%string).
Proof.
  intros Hm Hchat Hbot Hfound Hact Hroute Hph Hdoc Hvo Hau Hvi.
  rewrite (relay_message_run _ _ _ _ _ _ Hm Hchat Hbot Hfound), Hact, Hroute.
  destruct (forward_head transport p m target role)
    as (call & rest & Hf & Hcall & _).
  exists call, rest. rewrite Hf. split; [reflexivity|].
  subst call. unfold text_only, relay_text, relay_media, prefixed.
  rewrite Hph, Hdoc, Hvo, Hau, Hvi. cbn [Py.truthy_seq Py.truthy_obj negb].
  rewrite !andb_true_r.
  split; [|split].
  - intros body -> Hbody. apply String.eqb_neq in Hbody.
    cbn. now rewrite Hbody.
  - intros c Htext -> Hc. apply String.eqb_neq in Hc.
    destruct Htext as [-> | ->]; cbn; now rewrite Hc.
  - intros [-> | ->] [-> | ->]; reflexivity.
Qed.

(** X11. The relay sends a message back into the chat it came from
    exactly when the project has that chat both as executor chat and as
    customer chat. *)
Theorem route_echo p (s target : Z) role :
  route p s = Some (target, role) ->
  (target = s <->
   executor_chat_id p = Some s /\ customer_chat_id p = Some s).
Proof.
  intros Hroute.
  destruct (route_cases p s)
    as [(He & d & Hc & Hnz & Hr) | [(Hn & Hc & d & He & Hnz & Hr)
                                   | (_ & _ & Hr)]];
    rewrite Hr in Hroute; [| |discriminate];
    injection Hroute as <- <-.
  - split; [intros ->; now split | intros [_ H]; congruence].
  - split; [|intros [H _]; congruence].
    intros ->. exfalso. apply Hn. split; [exact He|].
    apply truthy_int_iff. eauto.
Qed.

(** X12. Relaying is two-way: when a message from chat [s] is routed to
    another chat and [s] is not 0, a message from that chat is routed
    back to [s], under the other role. *)
Theorem route_back p (s target : Z) role :
  route p s = Some (target, role) ->
  target <> s -> s <> 0 ->
  route p target =
  Some (s, match role with executor => customer | customer => executor end).
Proof.
  intros Hroute Hne Hs.
  destruct (route_cases p s)
    as [(He & d & Hc & Hnz & Hr) | [(Hn & Hc & d & He & Hnz & Hr)
                                   | (_ & _ & Hr)]];
    rewrite Hr in Hroute; [| |discriminate];
    injection Hroute as <- <-; unfold route; rewrite He, Hc; cbn.
  - destruct (Z.eqb_spec s d); [congruence|].
    destruct (Z.eqb_spec s 0); [congruence|]. cbn.
    now rewrite Z.eqb_refl.
  - rewrite Z.eqb_refl. now destruct (Z.eqb_spec s 0); [congruence|].
Qed.

End RelayCalls.

(** * The store and the relay together *)

Section StoreAndRelay.

Implicit Types (t : Table) (r : Row) (p : Project) (m : Message).

Lemma update_rows_absent (set : Row -> Row) slug t :
  row_where_slug slug t = None -> update_rows set slug t = t.
Proof.
  unfold row_where_slug, update_rows. induction t as [|r t IH]; simpl;
    [reflexivity|].
  destruct (col_slug r =? slug)%string; [discriminate|].
  intros Hnone. now rewrite IH.
Qed.

Lemma find_by_chat_none_inv (chat_id : Z) t :
  find_by_chat chat_id t = (inr None, t) ->
  Py.fits_int64 chat_id = true /\
  forall r, In r t ->
    col_executor_chat_id r <> Some chat_id /\
    col_customer_chat_id r <> Some chat_id.
Proof.
  rewrite find_by_chat_run.
  destruct (Py.fits_int64 chat_id); [|discriminate].
  destruct (row_where_chat chat_id t) as [r|] eqn:Hr; [discriminate|].
  intros _. split; [reflexivity|].
  intros r Hin. pose proof (find_none _ _ Hr r Hin) as Hno.
  cbn beta in Hno. apply orb_false_iff in Hno as [He Hc].
  now apply eq_int_false_iff in He, Hc.
Qed.

Lemma row_where_chat_update_inactive (chat_id : Z) slug t :
  row_where_chat chat_id (update_rows set_inactive slug t) =
  option_map (fun r => if (col_slug r =? slug)%string then set_inactive r else r)
             (row_where_chat chat_id t).
Proof.
  unfold row_where_chat, update_rows. induction t as [|r t IH]; simpl;
    [reflexivity|].
  destruct (col_slug r =? slug)%string eqn:Hs; cbn;
    destruct (Py.eq_int (col_executor_chat_id r) chat_id
              || Py.eq_int (col_customer_chat_id r) chat_id);
    cbn; rewrite ?Hs; try reflexivity; exact IH.
Qed.

(** X13. Creating a project from one chat and binding another chat as
    its customer sets up the relay in both directions.  On a table where
    the slug is free and neither chat belongs to a project, with two
    different non-zero chats: afterwards a person's message from the
    executor chat is forwarded to the customer chat under the executor
    role, and one from the customer chat to the executor chat under the
    customer role. *)
Theorem created_and_bound_relays transport m slug (e c : Z) t :
  get slug t = (inr None, t) ->
  find_by_chat e t = (inr None, t) ->
  find_by_chat c t = (inr None, t) ->
  e <> 0 -> c <> 0 -> e <> c ->
  from_bot m = false ->
  let t' := snd (bind_customer slug c (snd (create_project slug e t))) in
  let project :=
    {| slug := slug; customer_chat_id := Some c;
       executor_chat_id := Some e; is_active := true |} in
  let update_in := fun chat =>
    {| effective_message := Some m;
       effective_chat := Some {| chat_id := chat |} |} in
  relay_message transport (update_in e) t' =
    (inr (forward transport project m c executor), t') /\
  relay_message transport (update_in c) t' =
    (inr (forward transport project m e customer), t').
Proof.
  intros Hslug He Hc Hez Hcz Hec Hbot t' project update_in.
  apply get_none_inv in Hslug.
  pose proof (find_by_chat_none_inv _ _ He) as [Hfits_e Hno_e].
  pose proof (find_by_chat_none_inv _ _ Hc) as [Hfits_c Hno_c].
  set (row := {| col_slug := slug; col_customer_chat_id := Some c;
                 col_executor_chat_id := Some e; col_is_active := 1 |}).
  assert (Ht' : t' = t ++ [row]).
  { subst t'. rewrite create_project_run, Hslug, Hfits_e. cbn [snd].
    rewrite bind_customer_run, (row_where_slug_insert slug), Hslug,
      String.eqb_refl, Hfits_c by reflexivity.
    cbv zeta. cbn [snd]. unfold update_rows at 1. rewrite map_app.
    fold (update_rows (set_column_and_activate customer_chat_id_column (Some c))
            slug t).
    rewrite update_rows_absent by exact Hslug.
    cbn. now rewrite String.eqb_refl. }
  assert (Hfind : forall s, (s = e \/ s = c) ->
            (forall r, In r t ->
               col_executor_chat_id r <> Some s /\
               col_customer_chat_id r <> Some s) ->
            find_by_chat s t' = (inr (Some project), t')).
  { intros s Hs Hno. rewrite find_by_chat_run, Ht'.
    replace (Py.fits_int64 s) with true by (destruct Hs; congruence).
    rewrite (row_where_chat_first s t [] row Hno); [reflexivity|].
    destruct Hs as [-> | ->]; cbn; auto. }
  apply Z.eqb_neq in Hez, Hcz, Hec.
  split.
  - rewrite (relay_message_run transport (update_in e) m {| chat_id := e |}
               t' (Some project) eq_refl eq_refl Hbot
               (Hfind e (or_introl eq_refl) Hno_e)).
    cbn. unfold route. cbn. now rewrite Z.eqb_refl, Hcz.
  - rewrite (relay_message_run transport (update_in c) m {| chat_id := c |}
               t' (Some project) eq_refl eq_refl Hbot
               (Hfind c (or_intror eq_refl) Hno_c)).
    cbn. unfold route. cbn. now rewrite Hec, Z.eqb_refl, Hez.
Qed.

(** X14. A stale unlink switches the relay off.  When the project
    found for a chat is the one stored under the slug, and the unlinked
    chat is neither of its two chats, then after [unlink_chat] no message
    from that chat is forwarded. *)
Theorem stale_unlink_stops_relay transport update m chat slug (stale : Z) t p :
  effective_message update = Some m ->
  effective_chat update = Some chat ->
  find_by_chat (chat_id chat) t = (inr (Some p), t) ->
  get slug t = (inr (Some p), t) ->
  executor_chat_id p <> Some stale ->
  customer_chat_id p <> Some stale ->
  let t' := snd (unlink_chat slug stale t) in
  relay_message transport update t' = (inr [], t').
Proof.
  intros Hm Hchat Hfound Hget He Hc t'.
  destruct (from_bot m) eqn:Hbot;
    [now apply (relay_message_from_bot _ _ m)|].
  apply get_some_inv in Hget as (r0 & Hr0 & Hp0).
  apply find_by_chat_inr_inv in Hfound as [Hfits Hfound].
  destruct (row_where_chat (chat_id chat) t) as [r|] eqn:Hr; [|discriminate].
  injection Hfound as Hp. symmetry in Hp.
  assert (Hslug : col_slug r = slug).
  { apply row_where_slug_slug in Hr0.
    change (Storage.slug (_row_to_project r) = slug).
    rewrite Hp, Hp0. exact Hr0. }
  assert (Ht' : t' = update_rows set_inactive slug t).
  { subst t'. rewrite unlink_chat_run, Hr0. cbv zeta. cbn [snd].
    rewrite Hp0 in He, Hc. cbn in He, Hc.
    apply eq_int_false_iff in He, Hc.
    rewrite He, Hc. now apply update_rows_ext. }
  rewrite (relay_message_run transport update m chat t'
             (Some (_row_to_project (set_inactive r))) Hm Hchat Hbot);
    [reflexivity|].
  rewrite find_by_chat_run, Hfits, Ht', row_where_chat_update_inactive, Hr.
  cbn [option_map]. apply String.eqb_eq in Hslug. now rewrite Hslug.
Qed.

End StoreAndRelay.

(** * The command handlers *)

Section CommandRuns.

Implicit Types (t : Table) (p : Project) (update : Handlers.Command).

Lemma try_run {A : Type} (call : Db A) t :
  Handlers.try_ call t =
  match call t with
  | (inl (ValueError msg), t') => (inr (inl msg), t')
  | (inl exc, t') => (inl exc, t')
  | (inr value, t') => (inr (inr value), t')
  end.
Proof.
  unfold Handlers.try_. cbn.
  now destruct (call t) as [[[msg| |]|value] t'].
Qed.

Lemma message_reply_text_run update text t :
  Handlers.message_reply_text update text t =
  match Handlers.message update with
  | Some _ => (inr [text], t)
  | None => (inl AttributeError, t)
  end.
Proof.
  unfold Handlers.message_reply_text.
  now destruct (Handlers.message update).
Qed.

Lemma create_project_handler_run update slug rest t :
  Handlers.args update = slug :: rest ->
  Handlers.create_project update t =
  match row_where_slug slug t with
  | Some _ =>
      Handlers.message_reply_text update
        ("Проект " ++ slug ++ " уже существует")%string t
  | None =>
      if Py.fits_int64 (chat_id (Handlers.command_chat update))
      then
        Handlers.message_reply_text update
          ("Проект " ++ slug
           ++ " создан. Теперь зайдите в чат с заказчиками и выполните /bind_customer "
           ++ slug ++ ".")%string
          (snd (Storage.create_project slug
                  (chat_id (Handlers.command_chat update)) t))
      else (inl OverflowError, t)
  end.
Proof.
  intros Hargs. unfold Handlers.create_project. rewrite Hargs.
  cbn [bind Monad_Db]. rewrite try_run, create_project_run.
  destruct (row_where_slug slug t); [reflexivity|].
  now destruct (Py.fits_int64 _).
Qed.

Lemma bind_customer_handler_run update slug rest t :
  Handlers.args update = slug :: rest ->
  Handlers.bind_customer update t =
  match row_where_slug slug t with
  | None =>
      Handlers.message_reply_text update
        ("Проект " ++ slug ++ " не найден")%string t
  | Some _ =>
      if Py.fits_int64 (chat_id (Handlers.command_chat update))
      then
        Handlers.message_reply_text update
          ("Проект " ++ slug ++ ": чат заказчика успешно привязан.")%string
          (snd (Storage.bind_customer slug
                  (chat_id (Handlers.command_chat update)) t))
      else (inl OverflowError, t)
  end.
Proof.
  intros Hargs. unfold Handlers.bind_customer. rewrite Hargs.
  cbn [bind Monad_Db]. rewrite try_run, bind_customer_run.
  destruct (row_where_slug slug t) as [r|] eqn:Hr; [|reflexivity].
  destruct (Py.fits_int64 _); [|reflexivity].
  cbn. now rewrite (row_where_slug_slug _ _ _ Hr).
Qed.

Lemma unlink_project_run update slug rest t :
  Handlers.args update = slug :: rest ->
  Handlers.unlink_project update t =
  let chat := chat_id (Handlers.command_chat update) in
  match row_where_slug slug t with
  | None =>
      Handlers.message_reply_text update
        ("Проект " ++ slug ++ " не найден")%string t
  | Some r =>
      Handlers.message_reply_text update
        ("Проект " ++ slug
         ++ ": чат отвязан или проект деактивирован. Активен: "
         ++ (if Py.eq_int (col_executor_chat_id r) chat
                || Py.eq_int (col_customer_chat_id r) chat
             then "да" else "нет")
         ++ ".")%string
        (snd (Storage.unlink_chat slug chat t))
  end.
Proof.
  intros Hargs. unfold Handlers.unlink_project. rewrite Hargs.
  cbn [bind Monad_Db]. rewrite try_run, unlink_chat_run.
  destruct (row_where_slug slug t) as [r|] eqn:Hr; [|reflexivity].
  cbv zeta. cbn [snd].
  rewrite <- (row_where_slug_slug _ _ _ Hr) at 2.
  unlink_cases r (chat_id (Handlers.command_chat update)); reflexivity.
Qed.

Lemma project_info_run update t :
  Py.fits_int64 (chat_id (Handlers.command_chat update)) = true ->
  exists text, Handlers.project_info update t =
               Handlers.message_reply_text update text t.
Proof.
  intros Hfits. unfold Handlers.project_info. cbn [bind Monad_Db].
  rewrite find_by_chat_run, Hfits.
  destruct (option_map _ _); now eexists.
Qed.

Lemma list_projects_handler_run update t :
  exists text, Handlers.list_projects update t =
               Handlers.message_reply_text update text t.
Proof.
  unfold Handlers.list_projects. cbn [bind Monad_Db].
  rewrite list_projects_run. destruct (map _ _); now eexists.
Qed.

(** With an argument, and a chat that fits when the store has to bind
    it, each of the three store commands ends in one reply through the
    message, on the table its store call left. *)
Lemma store_commands_run update t :
  Py.fits_int64 (chat_id (Handlers.command_chat update)) = true ->
  Forall (fun handler : Handlers.Handler =>
            exists text t',
              handler update t = Handlers.message_reply_text update text t')
    [ Handlers.create_project; Handlers.bind_customer;
      Handlers.unlink_project ].
Proof.
  intros Hfits.
  destruct (Handlers.args update) as [|slug rest] eqn:Hargs.
  - repeat constructor;
      unfold Handlers.create_project, Handlers.bind_customer,
        Handlers.unlink_project;
      rewrite Hargs; now eexists _, _.
  - repeat constructor.
    + rewrite (create_project_handler_run _ _ _ _ Hargs), Hfits.
      destruct (row_where_slug slug t); now eexists _, _.
    + rewrite (bind_customer_handler_run _ _ _ _ Hargs), Hfits.
      destruct (row_where_slug slug t); now eexists _, _.
    + rewrite (unlink_project_run _ _ _ _ Hargs). cbv zeta.
      destruct (row_where_slug slug t); now eexists _, _.
Qed.

End CommandRuns.

Section CommandProperties.

Implicit Types (t : Table) (p : Project) (update : Handlers.Command).

Variable ADMIN_USER_ID : Z.

(** X15. The four administrative commands are closed to everyone but
    the administrator: for a caller who is not the administrator, or for
    a command without a user, the reply is the refusal and the store is
    not touched. *)
Theorem admin_commands_refuse_others update t :
  (forall u, Handlers.effective_user update = Some u ->
     user_id u <> ADMIN_USER_ID) ->
  let refusal :=
    (@inr Exc _ ["Эта команда доступна только администратору."], t) in
  Handlers.admin_create_project ADMIN_USER_ID update t = refusal /\
  Handlers.admin_bind_customer ADMIN_USER_ID update t = refusal /\
  Handlers.admin_list_projects ADMIN_USER_ID update t = refusal /\
  Handlers.admin_unlink_project ADMIN_USER_ID update t = refusal.
Proof.
  intros Hother refusal.
  assert (Hno : Handlers.is_admin ADMIN_USER_ID
                  (option_map user_id (Handlers.effective_user update)) = false).
  { unfold Handlers.is_admin. apply eq_int_false_iff.
    destruct (Handlers.effective_user update) as [u|]; [|discriminate].
    intros [= Hu]. now apply (Hother u). }
  unfold Handlers.admin_create_project, Handlers.admin_bind_customer,
    Handlers.admin_list_projects, Handlers.admin_unlink_project,
    Handlers.admin_only.
  rewrite Hno. now repeat split.
Qed.

(** X16. For a command sent as a new message, from a chat whose
    identifier fits a signed 64-bit number, every command handler
    answers with exactly one reply and raises nothing: the store's
    [ValueError]s are caught and turned into the reply. *)
Theorem handlers_reply_once update t :
  Handlers.message update <> None ->
  Py.fits_int64 (chat_id (Handlers.command_chat update)) = true ->
  Forall (fun handler : Handlers.Handler =>
            exists reply t', handler update t = (inr [reply], t'))
    [ Handlers.start; Handlers.project_info;
      Handlers.create_project; Handlers.bind_customer;
      Handlers.list_projects; Handlers.unlink_project;
      Handlers.admin_create_project ADMIN_USER_ID;
      Handlers.admin_bind_customer ADMIN_USER_ID;
      Handlers.admin_list_projects ADMIN_USER_ID;
      Handlers.admin_unlink_project ADMIN_USER_ID ].
Proof.
  intros Hmessage Hfits.
  assert (Hreply : forall text t',
            exists reply t'',
              Handlers.message_reply_text update text t' = (inr [reply], t'')).
  { intros text t'. rewrite message_reply_text_run.
    destruct (Handlers.message update); [now eexists _, _ | congruence]. }
  pose proof (store_commands_run update t Hfits) as Hstore.
  inversion Hstore as [|? ? (tc & t1 & Hcreate) Hstore1]; subst.
  inversion Hstore1 as [|? ? (tb & t2 & Hbind) Hstore2]; subst.
  inversion Hstore2 as [|? ? (tu & t3 & Hunlink) _]; subst.
  destruct (project_info_run update t Hfits) as (ti & Hinfo).
  destruct (list_projects_handler_run update t) as (tl & Hlist).
  assert (Hadmin : forall handler : Handlers.Handler,
            (exists reply t', handler update t = (inr [reply], t')) ->
            exists reply t',
              Handlers.admin_only ADMIN_USER_ID handler update t =
              (inr [reply], t')).
  { intros handler Hh. unfold Handlers.admin_only.
    destruct (negb _); [now eexists _, _ | exact Hh]. }
  unfold Handlers.admin_create_project, Handlers.admin_bind_customer,
    Handlers.admin_list_projects, Handlers.admin_unlink_project.
  repeat constructor; try apply Hadmin;
    rewrite ?Hcreate, ?Hbind, ?Hunlink, ?Hinfo, ?Hlist; apply Hreply.
Qed.

(** X17. A command sent as a new message that cannot be carried out
    changes nothing in the store and says why: without an argument the
    reply is the usage line; [create_project] on a taken slug replies
    with the already-exists message; [bind_customer] and
    [unlink_project] on an unknown slug reply with the not-found
    message. *)
Theorem failed_commands_change_nothing update t :
  Handlers.message update <> None ->
  (Handlers.args update = [] ->
     Handlers.create_project update t =
       (inr ["Использование: /create_project <slug>"], t) /\
     Handlers.bind_customer update t =
       (inr ["Использование: /bind_customer <slug>"], t) /\
     Handlers.unlink_project update t =
       (inr ["Использование: /unlink_project <slug>"], t))
  /\
  (forall slug rest p,
     Handlers.args update = slug :: rest ->
     get slug t = (inr (Some p), t) ->
     Handlers.create_project update t =
       (inr [("Проект " ++ slug ++ " уже существует")%string], t))
  /\
  (forall slug rest,
     Handlers.args update = slug :: rest ->
     get slug t = (inr None, t) ->
     Handlers.bind_customer update t =
       (inr [("Проект " ++ slug ++ " не найден")%string], t) /\
     Handlers.unlink_project update t =
       (inr [("Проект " ++ slug ++ " не найден")%string], t)).
Proof.
  intros Hmessage.
  assert (Hreply : forall text t',
            Handlers.message_reply_text update text t' = (inr [text], t')).
  { intros text t'. rewrite message_reply_text_run.
    destruct (Handlers.message update); [reflexivity | congruence]. }
  split; [|split].
  - intros Hargs.
    unfold Handlers.create_project, Handlers.bind_customer,
      Handlers.unlink_project.
    rewrite Hargs, !Hreply. now repeat split.
  - intros slug rest p Hargs Hp.
    apply get_some_inv in Hp as (r & Hr & _).
    now rewrite (create_project_handler_run _ _ _ _ Hargs), Hr, Hreply.
  - intros slug rest Hargs Hnone. apply get_none_inv in Hnone.
    rewrite (bind_customer_handler_run _ _ _ _ Hargs),
      (unlink_project_run _ _ _ _ Hargs), Hnone, !Hreply.
    now split.
Qed.

(** X18. The reply of [unlink_project], sent as a new message, on a
    known slug tells what happened: it ends in the word for yes when the
    chat of the command was one of the project's two chats (which is then
    cleared), and in the word for no when it was neither (the project is
    then deactivated). *)
Theorem unlink_project_reply update slug rest t p :
  Handlers.message update <> None ->
  Handlers.args update = slug :: rest ->
  get slug t = (inr (Some p), t) ->
  let chat := chat_id (Handlers.command_chat update) in
  let reply := fun active =>
    ("Проект " ++ slug
     ++ ": чат отвязан или проект деактивирован. Активен: "
     ++ active ++ ".")%string in
  (executor_chat_id p = Some chat \/ customer_chat_id p = Some chat ->
     Handlers.unlink_project update t =
       (inr [reply "да"], snd (unlink_chat slug chat t)))
  /\
  (executor_chat_id p <> Some chat -> customer_chat_id p <> Some chat ->
     Handlers.unlink_project update t =
       (inr [reply "нет"], snd (unlink_chat slug chat t))).
Proof.
  intros Hmessage Hargs Hp chat reply.
  apply get_some_inv in Hp as (r & Hr & ->). cbn.
  rewrite (unlink_project_run _ _ _ _ Hargs), Hr. cbv zeta. fold chat.
  rewrite message_reply_text_run.
  destruct (Handlers.message update); [|congruence].
  rewrite <- !eq_int_false_iff, <- !eq_int_iff.
  split.
  - intros H. apply orb_true_iff in H. now rewrite H.
  - intros He Hc. now rewrite He, Hc.
Qed.

(** X19. A project created by the administrator is reported to its
    chat.  When the slug is free and the chat of the command belongs to
    no project, then after the administrator's [create_project] the
    [project_info] that any caller sends as a new message in that chat
    names the project, the executors' chat and the active state. *)
Theorem created_project_is_reported update update' slug rest u t :
  Handlers.effective_user update = Some u ->
  user_id u = ADMIN_USER_ID ->
  Handlers.args update = slug :: rest ->
  get slug t = (inr None, t) ->
  find_by_chat (chat_id (Handlers.command_chat update)) t = (inr None, t) ->
  Handlers.command_chat update' = Handlers.command_chat update ->
  Handlers.message update' <> None ->
  let t' := snd (Handlers.admin_create_project ADMIN_USER_ID update t) in
  Handlers.project_info update' t' =
  (inr [("Проект: " ++ slug ++ Handlers.nl
         ++ "Тип чата: чат исполнителей" ++ Handlers.nl
         ++ "Статус: активен")%string], t').
Proof.
  intros Hu Hadmin Hargs Hslug Hchat Hsame Hmessage t'.
  apply get_none_inv in Hslug.
  pose proof (find_by_chat_none_inv _ _ Hchat) as [Hfits Hno].
  set (chat := chat_id (Handlers.command_chat update)) in *.
  set (row := {| col_slug := slug; col_customer_chat_id := None;
                 col_executor_chat_id := Some chat; col_is_active := 1 |}).
  assert (Ht' : t' = t ++ [row]).
  { subst t'. unfold Handlers.admin_create_project, Handlers.admin_only,
      Handlers.is_admin.
    rewrite Hu. cbn [option_map Py.eq_int]. rewrite Hadmin, Z.eqb_refl.
    cbn [negb].
    rewrite (create_project_handler_run _ _ _ _ Hargs), Hslug. fold chat.
    rewrite Hfits, message_reply_text_run, create_project_run, Hslug, Hfits.
    now destruct (Handlers.message update). }
  unfold Handlers.project_info. cbn [bind Monad_Db].
  rewrite Hsame. fold chat.
  rewrite find_by_chat_run, Hfits, Ht',
    (row_where_chat_first chat t [] row Hno) by (now left).
  cbn [option_map]. rewrite message_reply_text_run.
  destruct (Handlers.message update'); [|congruence].
  cbn. now rewrite Z.eqb_refl.
Qed.

(** X20. A command that arrives as the edit of a message gets no reply
    from the plain handlers: each of them raises [AttributeError] where
    it would reply.  The three store commands have by then made their
    store call, so the table is the one that call left: an edited
    [create_project] for a free slug does store the project. *)
Theorem edited_commands_get_no_reply update t :
  Handlers.message update = None ->
  Py.fits_int64 (chat_id (Handlers.command_chat update)) = true ->
  Forall (fun handler : Handlers.Handler =>
            exists t', handler update t = (inl AttributeError, t'))
    [ Handlers.start; Handlers.project_info;
      Handlers.create_project; Handlers.bind_customer;
      Handlers.list_projects; Handlers.unlink_project ]
  /\
  (forall slug rest,
     Handlers.args update = slug :: rest ->
     let chat := chat_id (Handlers.command_chat update) in
     Handlers.create_project update t =
       (inl AttributeError, snd (Storage.create_project slug chat t)) /\
     Handlers.bind_customer update t =
       (inl AttributeError, snd (Storage.bind_customer slug chat t)) /\
     Handlers.unlink_project update t =
       (inl AttributeError, snd (Storage.unlink_chat slug chat t))).
Proof.
  intros Hmessage Hfits.
  assert (Hreply : forall text t',
            Handlers.message_reply_text update text t' =
            (inl AttributeError, t')).
  { intros text t'. now rewrite message_reply_text_run, Hmessage. }
  split.
  - pose proof (store_commands_run update t Hfits) as Hstore.
    inversion Hstore as [|? ? (tc & t1 & Hcreate) Hstore1]; subst.
    inversion Hstore1 as [|? ? (tb & t2 & Hbind) Hstore2]; subst.
    inversion Hstore2 as [|? ? (tu & t3 & Hunlink) _]; subst.
    destruct (project_info_run update t Hfits) as (ti & Hinfo).
    destruct (list_projects_handler_run update t) as (tl & Hlist).
    repeat constructor;
      rewrite ?Hcreate, ?Hbind, ?Hunlink, ?Hinfo, ?Hlist;
      eexists; apply Hreply.
  - intros slug rest Hargs chat. subst chat.
    rewrite (create_project_handler_run _ _ _ _ Hargs),
      (bind_customer_handler_run _ _ _ _ Hargs),
      (unlink_project_run _ _ _ _ Hargs), Hfits.
    cbv zeta.
    destruct (row_where_slug slug t) as [r|] eqn:Hr; rewrite !Hreply;
      rewrite ?create_project_run, ?bind_customer_run, ?unlink_chat_run,
        ?Hr, ?Hfits;
      now repeat split.
Qed.

End CommandProperties.

(** ** The further properties on the scenarios *)

Section OnTheScenarios.

Import Scenario Office.

Lemma store_keeps_slugs_unique_witness :
  NoDup (map col_slug (snd (create_project "n" 5 bound))) /\
  NoDup (map col_slug (snd (bind_customer "n" 5 bound))) /\
  NoDup (map col_slug (snd (unlink_chat "n" 5 bound))).
Proof.
  apply (store_keeps_slugs_unique "n" 5 bound).
  repeat constructor. intros [].
Defined.

Lemma unlink_chat_twice_witness :
  exists p1 t1 p2 t2,
    unlink_chat "p" 111 bound = (inr (Some p1), t1) /\
    executor_chat_id p1 <> Some 111 /\
    customer_chat_id p1 <> Some 111 /\
    unlink_chat "p" 111 t1 = (inr (Some p2), t2) /\
    executor_chat_id p2 = executor_chat_id p1 /\
    customer_chat_id p2 = customer_chat_id p1 /\
    is_active p2 = false.
Proof. apply (unlink_chat_twice "p" 111 bound p_bound). reflexivity. Defined.

Lemma create_project_twice_witness :
  create_project "p" 9223372036854775808 created =
  (inl (AlreadyExists "p"), created).
Proof.
  apply (create_project_twice "p" 111 9223372036854775808 empty).
  discriminate.
Defined.

Lemma bind_customer_last_wins_witness :
  bind_customer "p" 333 bound = bind_customer "p" 333 created.
Proof.
  apply (bind_customer_last_wins "p" 222 333 created). reflexivity.
Defined.

Lemma find_by_chat_spec_witness :
  (In p_bound (map _row_to_project bound) /\
   (executor_chat_id p_bound = Some 222 \/ customer_chat_id p_bound = Some 222))
  /\
  find_by_chat 333 bound = (inr None, bound)
  /\
  find_by_chat 9223372036854775808 bound = (inl OverflowError, bound).
Proof.
  split; [|split].
  - apply (proj1 (find_by_chat_spec 222 bound) p_bound). reflexivity.
  - apply (proj1 (proj2 (find_by_chat_spec 333 bound))).
    split; [reflexivity|]. intros p [<- | []]. split; discriminate.
  - apply (proj2 (proj2 (proj2 (find_by_chat_spec 9223372036854775808 bound)))).
    reflexivity.
Defined.

Lemma list_projects_agrees_with_get_witness :
  (exists projects,
     list_projects bound = (inr projects, bound) /\ In p_bound projects) <->
  get (slug p_bound) bound = (inr (Some p_bound), bound).
Proof.
  apply (list_projects_agrees_with_get bound p_bound).
  repeat constructor. intros [].
Defined.

Lemma list_projects_canonical_witness :
  fst (list_projects a_then_b) = fst (list_projects b_then_a).
Proof.
  apply (list_projects_canonical a_then_b b_then_a).
  - apply perm_swap.
  - repeat constructor; [intros [H | []]; discriminate H | intros []].
Defined.

Lemma relay_plain_forwarding_witness :
  exists call rest,
    relay_message delivering
      (update_in 111 (text_message (Some person) "hi")) bound =
    (inr (call :: rest), bound) /\
    call = send_message 222 (action_labels executor ++ " hi")%string.
Proof.
  destruct (relay_plain_forwarding delivering
              (update_in 111 (text_message (Some person) "hi"))
              (text_message (Some person) "hi")
              {| chat_id := 111 |} bound p_bound 222 executor
              eq_refl eq_refl eq_refl eq_refl eq_refl eq_refl
              eq_refl eq_refl eq_refl eq_refl eq_refl)
    as (call & rest & Hrun & Htext & _).
  exists call, rest. split; [exact Hrun|].
  apply (Htext "hi"); [reflexivity | discriminate].
Defined.

Lemma route_echo_witness :
  (5 = 5 <-> executor_chat_id q_tied = Some 5 /\ customer_chat_id q_tied = Some 5)
  /\
  (222 = 111 <->
   executor_chat_id p_bound = Some 111 /\ customer_chat_id p_bound = Some 111).
Proof.
  split.
  - apply (route_echo q_tied 5 5 executor). reflexivity.
  - apply (route_echo p_bound 111 222 executor). reflexivity.
Defined.

Lemma route_back_witness :
  route p_bound 222 = Some (111, customer).
Proof.
  apply (route_back p_bound 111 222 executor);
    [reflexivity | discriminate | discriminate].
Defined.

Lemma created_and_bound_relays_witness :
  relay_message delivering
    (update_in 111 (text_message (Some person) "hi")) bound =
    (inr (forward delivering p_bound (text_message (Some person) "hi")
            222 executor), bound) /\
  relay_message delivering
    (update_in 222 (text_message (Some person) "hi")) bound =
    (inr (forward delivering p_bound (text_message (Some person) "hi")
            111 customer), bound).
Proof.
  apply (created_and_bound_relays delivering
           (text_message (Some person) "hi") "p" 111 222 empty);
    try reflexivity; discriminate.
Defined.

Lemma stale_unlink_stops_relay_witness :
  relay_message delivering
    (update_in 111 (text_message (Some person) "hi"))
    (snd (unlink_chat "p" 999 bound)) =
  (inr [], snd (unlink_chat "p" 999 bound)).
Proof.
  apply (stale_unlink_stops_relay delivering
           (update_in 111 (text_message (Some person) "hi"))
           (text_message (Some person) "hi") {| chat_id := 111 |}
           "p" 999 bound p_bound);
    try reflexivity; discriminate.
Defined.

Lemma admin_commands_refuse_others_witness :
  Handlers.admin_unlink_project admin_id (command (Some guest) 111 ["p"]) bound =
  (inr ["Эта команда доступна только администратору."], bound)
  /\
  Handlers.admin_create_project admin_id (command None 111 ["n"]) bound =
  (inr ["Эта команда доступна только администратору."], bound).
Proof.
  split.
  - apply (admin_commands_refuse_others admin_id
             (command (Some guest) 111 ["p"]) bound).
    intros u [= <-]. discriminate.
  - apply (admin_commands_refuse_others admin_id
             (command None 111 ["n"]) bound).
    intros u [=].
Defined.

Lemma handlers_reply_once_witness :
  Forall (fun handler : Handlers.Handler =>
            exists reply t',
              handler (command (Some admin) 111 ["p"]) bound =
              (inr [reply], t'))
    [ Handlers.start; Handlers.project_info;
      Handlers.create_project; Handlers.bind_customer;
      Handlers.list_projects; Handlers.unlink_project;
      Handlers.admin_create_project admin_id;
      Handlers.admin_bind_customer admin_id;
      Handlers.admin_list_projects admin_id;
      Handlers.admin_unlink_project admin_id ].
Proof.
  apply (handlers_reply_once admin_id (command (Some admin) 111 ["p"]) bound);
    [discriminate | reflexivity].
Defined.

Lemma failed_commands_change_nothing_witness :
  Handlers.create_project (command (Some admin) 111 []) bound =
    (inr ["Использование: /create_project <slug>"], bound) /\
  Handlers.create_project (command (Some admin) 333 ["p"]) bound =
    (inr ["Проект p уже существует"], bound) /\
  Handlers.unlink_project (command (Some admin) 111 ["n"]) bound =
    (inr ["Проект n не найден"], bound).
Proof.
  assert (Hnew : forall chat words,
            Handlers.message (command (Some admin) chat words) <> None)
    by discriminate.
  split; [|split].
  - apply (proj1 (failed_commands_change_nothing
                    (command (Some admin) 111 []) bound (Hnew _ _))).
    reflexivity.
  - apply (proj1 (proj2 (failed_commands_change_nothing
                           (command (Some admin) 333 ["p"]) bound (Hnew _ _)))
             "p" [] p_bound); reflexivity.
  - apply (proj2 (proj2 (failed_commands_change_nothing
                           (command (Some admin) 111 ["n"]) bound (Hnew _ _)))
             "n" []); reflexivity.
Defined.

Lemma unlink_project_reply_witness :
  Handlers.unlink_project (command (Some admin) 222 ["p"]) bound =
    (inr ["Проект p: чат отвязан или проект деактивирован. Активен: да."],
     snd (unlink_chat "p" 222 bound)) /\
  Handlers.unlink_project (command (Some admin) 999 ["p"]) bound =
    (inr ["Проект p: чат отвязан или проект деактивирован. Активен: нет."],
     snd (unlink_chat "p" 999 bound)).
Proof.
  assert (Hnew : forall chat words,
            Handlers.message (command (Some admin) chat words) <> None)
    by discriminate.
  split.
  - apply (proj1 (unlink_project_reply
                    (command (Some admin) 222 ["p"]) "p" [] bound p_bound
                    (Hnew _ _) eq_refl eq_refl)).
    now right.
  - apply (proj2 (unlink_project_reply
                    (command (Some admin) 999 ["p"]) "p" [] bound p_bound
                    (Hnew _ _) eq_refl eq_refl)); discriminate.
Defined.

Lemma created_project_is_reported_witness :
  Handlers.project_info (command (Some guest) 111 [])
    (snd (Handlers.admin_create_project admin_id
            (command (Some admin) 111 ["p"]) empty)) =
  (inr [("Проект: p" ++ Handlers.nl ++ "Тип чата: чат исполнителей"
         ++ Handlers.nl ++ "Статус: активен")%string],
   snd (Handlers.admin_create_project admin_id
          (command (Some admin) 111 ["p"]) empty)).
Proof.
  apply (created_project_is_reported admin_id
           (command (Some admin) 111 ["p"]) (command (Some guest) 111 [])
           "p" [] admin empty); try reflexivity. discriminate.
Defined.

Lemma edited_commands_get_no_reply_witness :
  Handlers.create_project (edited_command (Some admin) 111 ["p"]) empty =
    (inl AttributeError, created) /\
  Handlers.unlink_project (edited_command (Some admin) 999 ["p"]) bound =
    (inl AttributeError, snd (unlink_chat "p" 999 bound)).
Proof.
  split.
  - apply (proj2 (edited_commands_get_no_reply
                    (edited_command (Some admin) 111 ["p"]) empty
                    eq_refl eq_refl) "p" []).
    reflexivity.
  - apply (proj2 (edited_commands_get_no_reply
                    (edited_command (Some admin) 999 ["p"]) bound
                    eq_refl eq_refl) "p" []).
    reflexivity.
Defined.

End OnTheScenarios.
